(** * simfire: the Rothermel rate-of-spread kernel, the Perlin noise
      field, the burn-status codes and the headless simulation loop.

    The kernel is given in three readings.  [Rothermel] reads Python
    floats as real numbers: no rounding, no infinity, no NaN, and a
    quotient by zero is [0] as division on [R] has it.  [RothermelIEEE]
    keeps the reals for the finite values and adds NaN and the two
    infinities with the rules of float arithmetic for them, so that a
    division by zero or a power of zero gives what the machine gives.
    [RothermelBinary64] evaluates the moisture damping line in the
    machine's binary64 arithmetic, rounding included. *)

From Stdlib Require Import Reals Lra Lia ZArith List String.
From Stdlib Require Import Sorted.
From Stdlib Require PrimFloat.
From stdpp Require Import base strings gmap.

Open Scope R_scope.

(** ** Float library functions used by the kernel *)

#[global] Instance Req_decision (x y : R) : Decision (x = y) := Req_dec_T x y.
#[global] Instance Rle_decision (x y : R) : Decision (x <= y) := Rle_dec x y.
#[global] Instance Rlt_decision (x y : R) : Decision (x < y) := Rlt_dec x y.
#[global] Instance Rge_decision (x y : R) : Decision (x >= y) := Rge_dec x y.

Module PyMath.

(** [x ** y] for a float exponent [y], after C's [pow]: an integral
    exponent is repeated multiplication (so [x ** 0 = 1] and
    [0 ** y = 0] for a positive integral [y]); a positive base gives
    [exp (y * ln x)]; [0 ** y] is [0] for positive [y].  Where [pow]
    leaves the finite reals (zero to a negative power, a negative base to
    a fractional power) the model gives [0]. *)
Definition pow (x y : R) : R :=
  if Req_dec_T (frac_part y) 0 then powerRZ x (Int_part y)
  else if Rlt_dec 0 x then Rpower x y
  else 0.

(** [math.atan2(y, x)], the angle of the point [(x, y)] in [(-PI, PI]]. *)
Definition atan2 (y x : R) : R :=
  if Rlt_dec 0 x then atan (y / x)
  else if Rlt_dec x 0 then
         (if Rle_dec 0 y then atan (y / x) + PI else atan (y / x) - PI)
  else if Rlt_dec 0 y then PI / 2
  else if Rlt_dec y 0 then - (PI / 2)
  else 0.

(** [math.radians(d)] *)
Definition radians (d : R) : R := d * (PI / 180).

End PyMath.

Notation "x ** y" := (PyMath.pow x y) (at level 30, right associativity) : R_scope.

(** ** world/rothermel.py *)

Module Rothermel.

(** Every local variable of [compute_rate_of_spread], in the order the
    body assigns them.  [U] and [R] are assigned more than once: the
    later values are [U_clamped] and [R_floored].  In the body below,
    [min] and [max] are [Rmin] and [Rmax], a float exponent is
    [PyMath.pow] and the integer exponents 2 and 3 are repeated
    multiplication. *)
Record Locals : Type := mkLocals {
  eta_S : R; r_M : R; eta_M : R; w_n : R; p_b : R; B : R; B_op : R;
  gamma_prime_max : R; A : R; gamma_prime : R; I_R : R; xi : R;
  c : R; b : R; e : R;
  angle_of_travel : R; wind_angle_radians : R;
  wind_along_angle_of_travel : R; U_clamped : R;
  phi_w : R; phi_s : R; epsilon : R; Q_ig : R;
  R_raw : R; R_floored : R
}.

Definition locals
    (loc_x loc_y loc_z new_loc_x new_loc_y new_loc_z
     w_0 delta M_x sigma h S_T S_e p_p M_f U U_dir : R) : Locals :=
  (* Mineral Damping Coefficient *)
  let eta_S := Rmin (0.174 * S_e ** (-0.19)) 1 in
  (* Moisture Damping Coefficient *)
  let r_M := Rmin (M_f / M_x) 1 in
  let eta_M := 1 - 2.59 * r_M + 5.11 * r_M ^ 2 - 3.52 * r_M ^ 3 in
  (* Net Fuel Load *)
  let w_n := w_0 * (1 - S_T) in
  (* Oven-dry Bulk Density *)
  let p_b := w_0 / delta in
  (* Packing Ratio *)
  let B := p_b / p_p in
  (* Optimum Packing Ratio *)
  let B_op := 3.348 * sigma ** (-0.8189) in
  (* Maximum Reaction Velocity *)
  let gamma_prime_max := sigma ** 1.5 / (495 + 0.0594 * sigma ** 1.5) in
  let A := 133 * sigma ** (-0.7913) in
  (* Optimum Reaction Velocity *)
  let gamma_prime :=
    gamma_prime_max * (B / B_op) ** A * exp (A * (1 - B / B_op)) in
  (* Reaction Intensity *)
  let I_R := gamma_prime * w_n * h * eta_M * eta_S in
  (* Propagating Flux Ratio *)
  let xi :=
    exp ((0.792 + 0.681 * sigma ** 0.5) * (B + 0.1)) / (192 + 0.25 * sigma) in
  (* Wind Factor *)
  let c := 7.47 * exp (-0.133 * sigma ** 0.55) in
  let b := 0.02526 * sigma ** 0.54 in
  let e := 0.715 * exp (-3.59e-4 * sigma) in
  let angle_of_travel := PyMath.atan2 (loc_y - new_loc_y) (new_loc_x - loc_x) in
  let wind_angle_radians := PyMath.radians (90 - U_dir) in
  let wind_along_angle_of_travel :=
    U * cos (wind_angle_radians - angle_of_travel) in
  let U := wind_along_angle_of_travel in
  let U := Rmax U 0 in
  let phi_w := c * U ** b * (B / B_op) ** (- e) in
  (* Slope Factor *)
  let phi_s := 5.275 * B ** (-0.3) * (new_loc_z - loc_z) ^ 2 in
  (* Effective Heating Number *)
  let epsilon := exp (-138 / sigma) in
  (* Heat of Preignition *)
  let Q_ig := 250 + 1116 * M_f in
  (* Rate of Spread *)
  let R := (I_R * xi * (1 + phi_w + phi_s)) / (p_b * epsilon * Q_ig) in
  let R' := Rmax R 0 in
  mkLocals eta_S r_M eta_M w_n p_b B B_op gamma_prime_max A gamma_prime
           I_R xi c b e angle_of_travel wind_angle_radians
           wind_along_angle_of_travel U phi_w phi_s epsilon Q_ig R R'.

(** The value the function returns: its last assignment to [R]. *)
Definition compute_rate_of_spread
    (loc_x loc_y loc_z new_loc_x new_loc_y new_loc_z
     w_0 delta M_x sigma h S_T S_e p_p M_f U U_dir : R) : R :=
  R_floored (locals loc_x loc_y loc_z new_loc_x new_loc_y new_loc_z
                    w_0 delta M_x sigma h S_T S_e p_p M_f U U_dir).

End Rothermel.

(** ** The moisture damping line in binary64 *)

Module RothermelBinary64.
Import PrimFloat.
#[local] Set Warnings "-inexact-float".

(** Line 18 of [compute_rate_of_spread] as the machine evaluates it: the
    literals are Python floats, so the sum is taken in binary64, left to
    right, with each literal rounded to the nearest double. *)
Definition eta_M (r_M : float) : float :=
  (1 - 2.59 * r_M + 5.11 * (r_M * r_M) - 3.52 * (r_M * r_M * r_M))%float.

(** The doubles 1, 0 and 2^-51. *)
Definition one : float := 1%float.
Definition zero : float := 0%float.
Definition two_pow_minus_51 : float := 0x1p-51%float.

End RothermelBinary64.

(** A call of a Python function either returns a value or raises. *)
Inductive PyResult (A : Type) : Type :=
  | Returns (v : A)
  | Raises (exc : string).
Arguments Returns {A} v.
Arguments Raises {A} exc.

(** ** Floats with their special values *)

Module IEEE.

(** A float without its rounding: NaN, an infinity, or a finite value read
    as a real number.  The two zeros are one, and as a divisor it counts
    as +0.  Overflow and underflow of a finite result are not modelled. *)
Inductive float : Type :=
  | NaN
  | PInf
  | NInf
  | Fin (r : R).

Definition opp (x : float) : float :=
  match x with
  | NaN => NaN
  | PInf => NInf
  | NInf => PInf
  | Fin r => Fin (- r)
  end.

Definition add (x y : float) : float :=
  match x, y with
  | NaN, _ | _, NaN => NaN
  | PInf, NInf | NInf, PInf => NaN
  | PInf, _ | _, PInf => PInf
  | NInf, _ | _, NInf => NInf
  | Fin a, Fin b => Fin (a + b)
  end.

Definition sub (x y : float) : float := add x (opp y).

(** An infinity [s] times a finite value: NaN for zero, else the sign
    rule. *)
Definition inf_times (s : float) (r : R) : float :=
  if decide (r = 0) then NaN
  else if decide (0 < r) then s
  else opp s.

Definition mul (x y : float) : float :=
  match x, y with
  | NaN, _ | _, NaN => NaN
  | Fin a, Fin b => Fin (a * b)
  | PInf, PInf | NInf, NInf => PInf
  | PInf, NInf | NInf, PInf => NInf
  | PInf, Fin r | Fin r, PInf => inf_times PInf r
  | NInf, Fin r | Fin r, NInf => inf_times NInf r
  end.

(** Division under NumPy's error model: no exception; a finite value
    over zero is an infinity of its sign, zero over zero is NaN. *)
Definition div (x y : float) : float :=
  match x, y with
  | NaN, _ | _, NaN => NaN
  | Fin a, Fin b =>
      if decide (b = 0) then
        if decide (a = 0) then NaN
        else if decide (0 < a) then PInf
        else NInf
      else Fin (a / b)
  | Fin _, PInf | Fin _, NInf => Fin 0
  | PInf, PInf | PInf, NInf | NInf, PInf | NInf, NInf => NaN
  | PInf, Fin b => if decide (0 <= b) then PInf else NInf
  | NInf, Fin b => if decide (0 <= b) then NInf else PInf
  end.

(** [x < y]: false as soon as one side is NaN. *)
Definition lt (x y : float) : Prop :=
  match x, y with
  | NaN, _ | _, NaN => False
  | Fin a, Fin b => a < b
  | _, NInf => False
  | NInf, _ => True
  | PInf, _ => False
  | Fin _, PInf => True
  end.

#[global] Instance lt_dec (x y : float) : Decision (lt x y).
Proof. destruct x, y; simpl; apply _. Defined.

(** [x <= y] *)
Definition le (x y : float) : Prop :=
  match x, y with
  | NaN, _ | _, NaN => False
  | Fin a, Fin b => a <= b
  | NInf, _ => True
  | _, PInf => True
  | _, NInf => False
  | PInf, _ => False
  end.

(** Python's [min(a, b)] and [max(a, b)]: [a] unless [b] is smaller,
    respectively larger.  A NaN in first place stays. *)
Definition min (a b : float) : float := if decide (lt b a) then b else a.
Definition max (a b : float) : float := if decide (lt a b) then b else a.

Definition exp (x : float) : float :=
  match x with
  | NaN => NaN
  | PInf => PInf
  | NInf => Fin 0
  | Fin r => Fin (Rtrigo_def.exp r)
  end.

Definition cos (x : float) : float :=
  match x with
  | Fin r => Fin (Rtrigo_def.cos r)
  | _ => NaN
  end.

(** [math.radians] *)
Definition radians (x : float) : float := mul x (Fin (PI / 180)).

(** [math.atan2(y, x)] *)
Definition atan2 (y x : float) : float :=
  match y, x with
  | NaN, _ | _, NaN => NaN
  | Fin a, Fin b => Fin (PyMath.atan2 a b)
  | PInf, PInf => Fin (PI / 4)
  | NInf, PInf => Fin (- (PI / 4))
  | PInf, NInf => Fin (3 * PI / 4)
  | NInf, NInf => Fin (- (3 * PI / 4))
  | PInf, Fin _ => Fin (PI / 2)
  | NInf, Fin _ => Fin (- (PI / 2))
  | Fin _, PInf => Fin 0
  | Fin a, NInf => if decide (0 <= a) then Fin PI else Fin (- PI)
  end.

Definition is_odd_integer (y : R) : Prop :=
  frac_part y = 0 /\ Z.odd (Int_part y) = true.

#[global] Instance is_odd_integer_dec (y : R) : Decision (is_odd_integer y).
Proof. unfold is_odd_integer. apply _. Defined.

(** [x ** y] for a float exponent, after C's [pow]: anything to the
    power 0 is 1, and so is 1 to any power; zero to a negative power is
    plus infinity; a negative base to a fractional power is NaN. *)
Definition pow (x y : float) : float :=
  match y with
  | Fin b =>
      if decide (b = 0) then Fin 1
      else
        match x with
        | NaN => NaN
        | Fin a =>
            if decide (a = 0) then (if decide (0 < b) then Fin 0 else PInf)
            else if decide (a < 0 /\ frac_part b <> 0) then NaN
            else Fin (PyMath.pow a b)
        | PInf => if decide (0 < b) then PInf else Fin 0
        | NInf =>
            if decide (0 < b)
            then (if decide (is_odd_integer b) then NInf else PInf)
            else Fin 0
        end
  | NaN =>
      match x with
      | Fin a => if decide (a = 1) then Fin 1 else NaN
      | _ => NaN
      end
  | PInf =>
      match x with
      | NaN => NaN
      | Fin a =>
          if decide (Rabs a < 1) then Fin 0
          else if decide (Rabs a = 1) then Fin 1
          else PInf
      | PInf | NInf => PInf
      end
  | NInf =>
      match x with
      | NaN => NaN
      | Fin a =>
          if decide (Rabs a < 1) then PInf
          else if decide (Rabs a = 1) then Fin 1
          else Fin 0
      | PInf | NInf => Fin 0
      end
  end.

End IEEE.

(** ** world/rothermel.py with the special values *)

Module RothermelIEEE.
Import IEEE.

Declare Scope ieee_scope.
Delimit Scope ieee_scope with ieee.
Notation "x + y" := (add x y) : ieee_scope.
Notation "x - y" := (sub x y) : ieee_scope.
Notation "x * y" := (mul x y) : ieee_scope.
Notation "x / y" := (div x y) : ieee_scope.
Notation "- x" := (opp x) : ieee_scope.
Notation "x ** y" := (pow x y) (at level 30, right associativity) : ieee_scope.
Notation "# r" := (Fin r%R) (at level 5, r at level 1, format "# r") : ieee_scope.

(** [compute_rate_of_spread] line by line, as [Rothermel.locals] has it,
    on floats that can be infinite or NaN.  The integer exponents 2 and 3
    are products. *)
Definition compute_rate_of_spread
    (loc_x loc_y loc_z new_loc_x new_loc_y new_loc_z
     w_0 delta M_x sigma h S_T S_e p_p M_f U U_dir : float) : float :=
  (let eta_S := min (#0.174 * S_e ** #(-0.19)) #1 in
   let r_M := min (M_f / M_x) #1 in
   let eta_M :=
     #1 - #2.59 * r_M + #5.11 * (r_M * r_M) - #3.52 * (r_M * r_M * r_M) in
   let w_n := w_0 * (#1 - S_T) in
   let p_b := w_0 / delta in
   let B := p_b / p_p in
   let B_op := #3.348 * sigma ** #(-0.8189) in
   let gamma_prime_max :=
     sigma ** #1.5 / (#495 + #0.0594 * sigma ** #1.5) in
   let A := #133 * sigma ** #(-0.7913) in
   let gamma_prime :=
     gamma_prime_max * (B / B_op) ** A * exp (A * (#1 - B / B_op)) in
   let I_R := gamma_prime * w_n * h * eta_M * eta_S in
   let xi :=
     exp ((#0.792 + #0.681 * sigma ** #0.5) * (B + #0.1))
     / (#192 + #0.25 * sigma) in
   let c := #7.47 * exp (#(-0.133) * sigma ** #0.55) in
   let b := #0.02526 * sigma ** #0.54 in
   let e := #0.715 * exp (#(-3.59e-4) * sigma) in
   let angle_of_travel := atan2 (loc_y - new_loc_y) (new_loc_x - loc_x) in
   let wind_angle_radians := radians (#90 - U_dir) in
   let wind_along_angle_of_travel :=
     U * cos (wind_angle_radians - angle_of_travel) in
   let U := wind_along_angle_of_travel in
   let U := max U #0 in
   let phi_w := c * U ** b * (B / B_op) ** (- e) in
   let phi_s :=
     #5.275 * B ** #(-0.3) * ((new_loc_z - loc_z) * (new_loc_z - loc_z)) in
   let epsilon := exp (#(-138) / sigma) in
   let Q_ig := #250 + #1116 * M_f in
   let R := (I_R * xi * (#1 + phi_w + phi_s)) / (p_b * epsilon * Q_ig) in
   let R := max R #0 in
   R)%ieee.


End RothermelIEEE.

(** The final rate in the words of the specification, step 9 and 10 of
    the kernel: a function of the quantities it names. *)
Module KernelSpec.

(** Step 2: the cubic moisture damping polynomial of the ratio [r]. *)
Definition moisture_damping (r : R) : R :=
  1 - 2.59 * r + 5.11 * r ^ 2 - 3.52 * r ^ 3.

Definition heating_number (sigma : R) : R := exp (-138 / sigma).

Definition preignition_heat (moisture_fraction : R) : R :=
  250 + 1116 * moisture_fraction.

Definition final_rate
    (reaction_intensity flux_ratio wind_factor slope_factor
     bulk_density sigma moisture_fraction : R) : R :=
  Rmax (reaction_intensity * flux_ratio * (1 + wind_factor + slope_factor)
        / (bulk_density * heating_number sigma
           * preignition_heat moisture_fraction))
       0.

Definition slope_factor (packing origin_elevation target_elevation : R) : R :=
  5.275 * packing ** (-0.3) * (target_elevation - origin_elevation) ^ 2.

End KernelSpec.

(** ** NumPy arrays *)

Module Np.

(** A 2-D array, row by row. *)
Definition ndarray (A : Type) : Type := list (list A).

(** [np.full((n, m), v)] *)
Definition full {A} (n m : nat) (v : A) : ndarray A := repeat (repeat v m) n.

(** [a.shape == (n, m)] *)
Definition has_shape {A} (a : ndarray A) (n m : nat) : Prop :=
  length a = n /\ Forall (fun row => length row = m) a.

(** An index [i] on an axis of length [n]: a negative index counts from
    the end, and an index outside [[-n, n)] is an [IndexError], here
    [None]. *)
Definition axis_index (n : nat) (i : Z) : option nat :=
  if decide (0 <= i < Z.of_nat n)%Z then Some (Z.to_nat i)
  else if decide (- Z.of_nat n <= i < 0)%Z then Some (Z.to_nat (i + Z.of_nat n))
  else None.

(** [a[x, y]] *)
Definition getitem {A} (a : ndarray A) (x y : Z) : PyResult A :=
  match axis_index (length a) x with
  | None => Raises "IndexError"
  | Some i =>
      match a !! i with
      | None => Raises "IndexError"
      | Some row =>
          match axis_index (length row) y with
          | None => Raises "IndexError"
          | Some j =>
              match row !! j with
              | None => Raises "IndexError"
              | Some v => Returns v
              end
          end
      end
  end.

End Np.

(** ** world/elevation_functions.py *)

Module ElevationFunctions.
Import Np.

(** The process-wide generator behind [np.random], seen through the
    doubles in [[0, 1)] it hands out next. *)
Definition RandomState : Type := nat -> R.

(** [np.random.rand(n, m)]: [n * m] draws in row-major order; the
    generator moves on by as many. *)
Definition rand (st : RandomState) (n m : nat) : ndarray R * RandomState :=
  (map (fun i => map (fun j => st (i * m + j)%nat) (seq 0 m)) (seq 0 n),
   fun k => st (n * m + k)%nat).

Record PerlinNoise2D : Type := mkPerlinNoise2D {
  amplitude : R;
  shape : nat * nat;
  res : nat * nat;
  terrain_map : option (ndarray R)
}.

(** [__init__]: the constructor takes an amplitude, a shape and a
    resolution, and nothing else. *)
Definition init (amplitude : R) (shape res : nat * nat) : PerlinNoise2D :=
  mkPerlinNoise2D amplitude shape res None.

Definition f (t : R) : R := 6 * t ^ 5 - 15 * t ^ 4 + 10 * t ^ 3.

(** [a.repeat(d, 0)] and [a.repeat(d, 1)] *)
Definition repeat_axis0 {A} (d : nat) (a : ndarray A) : ndarray A :=
  flat_map (fun row => repeat row d) a.
Definition repeat_axis1 {A} (d : nat) (a : ndarray A) : ndarray A :=
  map (flat_map (fun x => repeat x d)) a.

(** [a[0:-1]] and [a[1:]] along each axis *)
Definition rows_but_last {A} (a : ndarray A) : ndarray A := removelast a.
Definition rows_but_first {A} (a : ndarray A) : ndarray A := tl a.
Definition cols_but_last {A} (a : ndarray A) : ndarray A :=
  map (fun row => removelast row) a.
Definition cols_but_first {A} (a : ndarray A) : ndarray A :=
  map (fun row => tl row) a.

Definition map2 {A B C} (g : A -> B -> C)
    (x : ndarray A) (y : ndarray B) : ndarray C :=
  zip_with (zip_with g) x y.

Definition map3 {A B C D} (g : A -> B -> C -> D)
    (x : ndarray A) (y : ndarray B) (z : ndarray C) : ndarray D :=
  map2 (fun ab c => g (fst ab) (snd ab) c) (map2 pair x y) z.

(** [np.sum(p * q, 2)] on arrays whose last axis has length two *)
Definition dot (p q : R * R) : R := fst p * fst q + snd p * snd q.

(** [np.min(a)]; an empty array has no minimum. *)
Definition np_min (a : ndarray R) : option R :=
  match concat a with
  | [] => None
  | x :: l => Some (fold_left Rmin l x)
  end.

(** [np.mgrid[0:r0:d0, 0:r1:d1].transpose(1, 2, 0) % 1]: point [(i, j)]
    is [(i * d0 % 1, j * d1 % 1)].  With the steps [d0 = r0 / n0] and
    [d1 = r1 / n1] the slices hold [n0] and [n1] points. *)
Definition mgrid_mod1 (n0 n1 : nat) (d0 d1 : R) : ndarray (R * R) :=
  map (fun i => map (fun j => (frac_part (INR i * d0), frac_part (INR j * d1)))
                    (seq 0 n1))
      (seq 0 n0).

(** [precompute]: the field is computed from [self] and from the angles
    drawn from the process-wide generator; [None] stands for a raised
    exception (a division by zero, arrays whose shapes do not agree). *)
Definition precompute (self : PerlinNoise2D) (st : RandomState)
    : option (PerlinNoise2D * RandomState) :=
  let res := res self in
  let shape := shape self in
  if decide (fst shape = 0 \/ snd shape = 0 \/ fst res = 0 \/ snd res = 0)%nat
  then None else
  let delta := (INR (fst res) / INR (fst shape), INR (snd res) / INR (snd shape)) in
  let d := (fst shape / fst res, snd shape / snd res)%nat in
  let grid := mgrid_mod1 (fst shape) (snd shape) (fst delta) (snd delta) in
  (* Gradients *)
  let '(draws, st') := rand st (fst res + 1) (snd res + 1) in
  let angles := map (map (fun u => 2 * PI * u)) draws in
  let gradients := map (map (fun a => (cos a, sin a))) angles in
  let rep (a : ndarray (R * R)) := repeat_axis1 (snd d) (repeat_axis0 (fst d) a) in
  let g00 := rep (cols_but_last (rows_but_last gradients)) in
  let g10 := rep (cols_but_last (rows_but_first gradients)) in
  let g01 := rep (cols_but_first (rows_but_last gradients)) in
  let g11 := rep (cols_but_first (rows_but_first gradients)) in
  if decide (fst res * fst d <> fst shape \/ snd res * snd d <> snd shape)%nat
  then None else
  (* Ramps *)
  let n00 := map2 dot grid g00 in
  let n10 := map2 dot (map (map (fun p => (fst p - 1, snd p))) grid) g10 in
  let n01 := map2 dot (map (map (fun p => (fst p, snd p - 1))) grid) g01 in
  let n11 := map2 dot (map (map (fun p => (fst p - 1, snd p - 1))) grid) g11 in
  (* Interpolation *)
  let t := map (map (fun p => (f (fst p), f (snd p)))) grid in
  let n0 := map3 (fun n00 t n10 => n00 * (1 - fst t) + fst t * n10) n00 t n10 in
  let n1 := map3 (fun n01 t n11 => n01 * (1 - fst t) + fst t * n11) n01 t n11 in
  let terrain :=
    map3 (fun t n0 n1 =>
            amplitude self * sqrt 2 * ((1 - snd t) * n0 + snd t * n1))
         t n0 n1 in
  match np_min terrain with
  | None => None
  | Some m =>
      let terrain := map (map (fun v => v + m)) terrain in
      Some (mkPerlinNoise2D (amplitude self) shape res (Some terrain), st')
  end.

(** [gaussian(amplitude, mu_x, mu_y, sigma_x, sigma_y)] returns the
    closure [fn]; here the closure applied to [(x, y)].  Python's [/]
    raises [ZeroDivisionError] on a zero divisor.  The [OverflowError] of
    a float square that leaves the doubles has no counterpart on the
    reals: what is stated about a returned value holds for the calls
    that return. *)
Definition gaussian (amplitude mu_x mu_y sigma_x sigma_y : R) (x y : R)
    : PyResult R :=
  if decide (4 * sigma_x ^ 2 = 0) then Raises "ZeroDivisionError"
  else if decide (4 * sigma_y ^ 2 = 0) then Raises "ZeroDivisionError"
  else
    let exp_term :=
      ((x - mu_x) ^ 2 / (4 * sigma_x ^ 2))
      + ((y - mu_y) ^ 2 / (4 * sigma_y ^ 2)) in
    let z := amplitude * exp (- exp_term) in
    Returns z.

(** A coordinate handed to [PerlinNoise2D.fn]: an [int] or a [float]. *)
Inductive PyNumber : Type :=
  | PyInt (z : Z)
  | PyFloat (r : R).

(** [int(x)]: a float is truncated towards zero. *)
Definition py_int (x : PyNumber) : Z :=
  match x with
  | PyInt z => z
  | PyFloat r => if decide (0 <= r) then Int_part r else (- Int_part (- r))%Z
  end.

(** [PerlinNoise2D.fn]: subscripting the [None] that [terrain_map] holds
    before [precompute] is a [TypeError]. *)
Definition fn (self : PerlinNoise2D) (x y : PyNumber) : PyResult R :=
  let x := py_int x in
  let y := py_int y in
  match terrain_map self with
  | None => Raises "TypeError"
  | Some a => getitem a x y
  end.

(** [flat()] returns a closure that is 0 everywhere. *)
Definition flat (x y : R) : R := 0.

End ElevationFunctions.

(** ** enums.py *)

Module Enums.

(** [auto()] in an [IntEnum] body: one more than the value given to the
    member before it, and [1] for the first member. *)
Definition auto (last_values : list Z) : Z :=
  match last last_values with
  | Some v => (v + 1)%Z
  | None => 1%Z
  end.

Inductive BurnStatus : Type :=
  | UNBURNED
  | BURNING
  | BURNED
  | FIRELINE
  | SCRATCHLINE
  | WETLINE.

#[global] Instance BurnStatus_eq_dec : EqDecision BurnStatus.
Proof. solve_decision. Defined.

(** The class body runs top to bottom; each [auto()] sees the values
    assigned so far. *)
Definition UNBURNED_value : Z := auto [].
Definition BURNING_value : Z := auto [UNBURNED_value].
Definition BURNED_value : Z := auto [UNBURNED_value; BURNING_value].
Definition FIRELINE_value : Z :=
  auto [UNBURNED_value; BURNING_value; BURNED_value].
Definition SCRATCHLINE_value : Z :=
  auto [UNBURNED_value; BURNING_value; BURNED_value; FIRELINE_value].
Definition WETLINE_value : Z :=
  auto [UNBURNED_value; BURNING_value; BURNED_value; FIRELINE_value;
        SCRATCHLINE_value].

(** The integer an [IntEnum] member is. *)
Definition value (s : BurnStatus) : Z :=
  match s with
  | UNBURNED => UNBURNED_value
  | BURNING => BURNING_value
  | BURNED => BURNED_value
  | FIRELINE => FIRELINE_value
  | SCRATCHLINE => SCRATCHLINE_value
  | WETLINE => WETLINE_value
  end.

(** The members in definition order. *)
Definition members : list BurnStatus :=
  [UNBURNED; BURNING; BURNED; FIRELINE; SCRATCHLINE; WETLINE].

(** [BurnStatus(v)]: the member with that value; [None] where Python
    raises [ValueError]. *)
Definition of_value (v : Z) : option BurnStatus :=
  find (fun s => bool_decide (value s = v)) members.

End Enums.

(** ** rl_env/simulation.py *)

Module Simulation.
Import Np Enums.

(** Modelled from the spec: [GameStatus] is imported from [enums.py] but
    is not defined in the file at hand.  The engine has one non-terminal
    status, RUNNING, and three terminal ones: BURNED_OUT, TIMED_OUT and
    QUIT. *)
Inductive GameStatus : Type :=
  | RUNNING
  | QUIT
  | BURNED_OUT
  | TIMED_OUT.

#[global] Instance GameStatus_eq_dec : EqDecision GameStatus.
Proof. solve_decision. Defined.

(** [get_actions] *)
Definition get_actions : gmap string BurnStatus :=
  {[ "none" := UNBURNED;
     "fireline" := FIRELINE;
     "scratchline" := SCRATCHLINE;
     "wetline" := WETLINE ]}.

Section Run.

(** The fire manager, [game/managers/fire.py], is used through its
    constructor, its [sprites] attribute and its [update] method, which
    returns the new fire map and the fire status and changes the
    manager. *)
Context {FireManager Sprites : Type}.
Variable RothermelFireManager : FireManager.
Variable sprites : FireManager -> Sprites.
Variable update :
  FireManager -> ndarray Z -> ndarray Z * GameStatus * FireManager.

(** The attributes of a [RothermelSimulation] that [run] reads or
    writes. *)
Record RothermelSimulation : Type := mkRothermelSimulation {
  screen_size : nat;
  fire_status : GameStatus;
  fire_manager : FireManager;
  fire_sprites : Sprites;
  fire_map : ndarray Z
}.

(** The [while] loop of [run].  [fuel] bounds the number of times the
    loop condition is evaluated; [None] means the bound was reached.
    Falling out of the loop ends the function without a [return]
    statement, so the call returns Python's [None]: [Returns None]. *)
Fixpoint run_loop (fuel : nat) (self : RothermelSimulation)
    : option (PyResult (option (ndarray Z)) * RothermelSimulation) :=
  match fuel with
  | O => None
  | S fuel' =>
      if decide (fire_status self = RUNNING) then
        let fire_sprites := sprites (fire_manager self) in
        let '(fire_map, fire_status, fire_manager) :=
          update (fire_manager self) (fire_map self) in
        let self :=
          mkRothermelSimulation (screen_size self) fire_status fire_manager
                                fire_sprites fire_map in
        if decide (fire_status = QUIT)
        then Some (Returns (Some fire_map), self)
        else run_loop fuel' self
      else Some (Returns None, self)
  end.

(** [run].  With [mitigation] set, [_update_sprite_points] is called with
    one argument where it has two required parameters, which raises
    [TypeError] before the loop is reached. *)
Definition run (fuel : nat) (self : RothermelSimulation)
    (mitigation_state : ndarray Z) (mitigation : bool)
    : option (PyResult (option (ndarray Z)) * RothermelSimulation) :=
  let self :=
    mkRothermelSimulation (screen_size self) RUNNING RothermelFireManager
                          (fire_sprites self)
                          (full (screen_size self) (screen_size self)
                                (value UNBURNED)) in
  if mitigation then Some (Raises "TypeError", self)
  else run_loop fuel self.

(** The manager and fire map after [k] updates, starting from [(m, fm)]. *)
Fixpoint after_updates (k : nat) (m : FireManager) (fm : ndarray Z)
    : FireManager * ndarray Z :=
  match k with
  | O => (m, fm)
  | S k' =>
      let '(fm', _, m') := update m fm in after_updates k' m' fm'
  end.

(** The fire map and the status that update number [k] (from 0) returns. *)
Definition kth_update (k : nat) (m : FireManager) (fm : ndarray Z)
    : ndarray Z * GameStatus :=
  let '(m', fm') := after_updates k m fm in
  let '(fm'', status, _) := update m' fm' in (fm'', status).

End Run.

(** [np.unique] of the flattened array: its distinct values in
    increasing order. *)
Fixpoint insert_unique (v : Z) (l : list Z) : list Z :=
  match l with
  | [] => [v]
  | x :: l' =>
      if decide (v < x)%Z then v :: x :: l'
      else if decide (v = x) then x :: l'
      else x :: insert_unique v l'
  end.

Definition np_unique (a : ndarray Z) : list Z :=
  foldr insert_unique [] (concat a).

(** A Python [dict] from strings to integers, in insertion order.
    [d[k] = v] replaces the value of a key that is present and appends
    otherwise. *)
Fixpoint dict_set (d : list (string * Z)) (k : string) (v : Z)
    : list (string * Z) :=
  match d with
  | [] => [(k, v)]
  | (k', v') :: d' =>
      if decide (k = k') then (k, v) :: d' else (k', v') :: dict_set d' k v
  end.

(** [{actions[i]: harness_ints[i] for i in range(len(harness_ints))}],
    the entries added to [d] in the order of [i]; [actions[i]] past the
    end of [actions] is an [IndexError]. *)
Fixpoint harness_dict_from (d : list (string * Z))
    (actions : list string) (harness_ints : list Z)
    : PyResult (list (string * Z)) :=
  match harness_ints with
  | [] => Returns d
  | v :: harness_ints' =>
      match actions with
      | [] => Raises "IndexError"
      | a :: actions' =>
          harness_dict_from (dict_set d a v) actions' harness_ints'
      end
  end.

(** The body of the inner loop of [conversion]: the keys of
    [harness_dict] whose value is the cell, the first of them looked up
    in [sim_actions]. *)
Definition convert_cell (harness_dict : list (string * Z)) (mitigation_j : Z)
    : PyResult Z :=
  let action :=
    map fst (filter (fun kv => snd kv = mitigation_j) harness_dict) in
  match action with
  | [] => Raises "IndexError"
  | a :: _ =>
      match get_actions !! a with
      | None => Raises "KeyError"
      | Some s => Returns (value s)
      end
  end.

(** The two loops of [conversion] over the cells in row-major order; the
    first exception ends them. *)
Fixpoint convert_cells (harness_dict : list (string * Z)) (cells : list Z)
    : PyResult (list Z) :=
  match cells with
  | [] => Returns []
  | c :: cells' =>
      match convert_cell harness_dict c with
      | Raises exc => Raises exc
      | Returns v =>
          match convert_cells harness_dict cells' with
          | Raises exc => Raises exc
          | Returns vs => Returns (v :: vs)
          end
      end
  end.

(** [n] rows of [m] items taken from the front of [l]. *)
Fixpoint rows_of {A} (n m : nat) (l : list A) : ndarray A :=
  match n with
  | O => []
  | S n' => take m l :: rows_of n' m (drop m l)
  end.

(** [np.asarray(l).reshape(n, m)]: a [ValueError] unless [l] has
    [n * m] items. *)
Definition reshape {A} (l : list A) (n m : nat) : PyResult (ndarray A) :=
  if decide (length l = n * m)%nat then Returns (rows_of n m l)
  else Raises "ValueError".

(** [Simulation.conversion], which [RothermelSimulation.conversion]
    calls through [super()].  The result is reshaped to
    [(len(mitigation_map[0]), len(mitigation_map[1]))], the lengths of the
    first two rows. *)
Definition conversion (actions : list string) (mitigation_map : ndarray Z)
    : PyResult (ndarray Z) :=
  let harness_ints := np_unique mitigation_map in
  match harness_dict_from [] actions harness_ints with
  | Raises exc => Raises exc
  | Returns harness_dict =>
      match convert_cells harness_dict (concat mitigation_map) with
      | Raises exc => Raises exc
      | Returns sim_mitigation_map =>
          match mitigation_map !! 0%nat, mitigation_map !! 1%nat with
          | Some row0, Some row1 =>
              reshape sim_mitigation_map (length row0) (length row1)
          | _, _ => Raises "IndexError"
          end
      end
  end.

(** [pos[i] = v] on a flat array, [i] counted from the end when
    negative; [None] is an [IndexError]. *)
Definition setitem (pos : list Z) (i : Z) (v : Z) : option (list Z) :=
  match axis_index (length pos) i with
  | Some k => Some (<[k := v]> pos)
  | None => None
  end.

(** [pos[idx] = v] for an array of indices. *)
Definition setitems (pos : list Z) (idx : list Z) (v : Z)
    : option (list Z) :=
  foldl (fun acc i => match acc with
                      | Some p => setitem p i v
                      | None => None
                      end)
        (Some pos) idx.

(** [_correct_pos], with [self.config.area.screen_size] as first
    argument. *)
Definition _correct_pos (screen_size : nat) (position : ndarray Z)
    : PyResult (ndarray Z) :=
  let pos := concat position in
  let current_pos :=
    filter (fun i => pos !! i = Some 1%Z) (seq 0 (length pos)) in
  let prev_pos := map (fun i => (Z.of_nat i - 1)%Z) current_pos in
  match setitems pos prev_pos 1 with
  | None => Raises "IndexError"
  | Some pos =>
      match setitems pos (map Z.of_nat current_pos) 0 with
      | None => Raises "IndexError"
      | Some pos => reshape pos screen_size screen_size
      end
  end.

End Simulation.

(** ** game/game.py *)

Module Game.
Import Np Simulation.

(** [_get_wind_direction_color].  The four [if] statements run one after
    the other, each overwriting [colorRGB] when its test holds;
    [math.floor] is [Int_part]. *)
Definition _get_wind_direction_color (direction : R) : Z * Z * Z :=
  let north_min := 0 in
  let north_max := 360 in
  let east := 90 in
  let south := 180 in
  let west := 270 in
  let colorRGB := (255, 255, 255) in
  (* North to East *)
  let colorRGB :=
    if decide (direction >= north_min /\ direction < east) then
      let angleRange := east - north_min in
      let redMin := 255 in
      let redMax := 128 in
      let redRange := redMax - redMin in
      let red := (((direction - north_min) * redRange) / angleRange) + redMin in
      let greenMin := 0 in
      let greenMax := 255 in
      let greenRange := greenMax - greenMin in
      let green :=
        (((direction - north_min) * greenRange) / angleRange) + greenMin in
      (red, green, 0)
    else colorRGB in
  (* East to South *)
  let colorRGB :=
    if decide (direction >= east /\ direction < south) then
      let angleRange := south - east in
      let redMin := 128 in
      let redMax := 0 in
      let redRange := redMax - redMin in
      let red := (((direction - east) * redRange) / angleRange) + redMin in
      let blueMin := 0 in
      let blueMax := 255 in
      let blueRange := blueMax - blueMin in
      let blue := (((direction - east) * blueRange) / angleRange) + blueMin in
      (red, 255, blue)
    else colorRGB in
  (* South to West *)
  let colorRGB :=
    if decide (direction >= south /\ direction < west) then
      let angleRange := west - south in
      let redMin := 0 in
      let redMax := 128 in
      let redRange := redMax - redMin in
      let red := (((direction - south) * redRange) / angleRange) + redMin in
      let greenMin := 255 in
      let greenMax := 0 in
      let greenRange := greenMax - greenMin in
      let green :=
        (((direction - south) * greenRange) / angleRange) + greenMin in
      (red, green, 255)
    else colorRGB in
  (* West to North *)
  let colorRGB :=
    if decide (direction <= north_max /\ direction >= west) then
      let angleRange := north_max - west in
      let redMin := 128 in
      let redMax := 255 in
      let redRange := redMax - redMin in
      let red := (((direction - west) * redRange) / angleRange) + redMin in
      let blueMin := 0 in
      let blueMax := 255 in
      let blueRange := blueMax - blueMin in
      let blue := (((direction - west) * blueRange) / angleRange) + blueMin in
      (red, 0, blue)
    else colorRGB in
  let floorColorRGB :=
    (Int_part (fst (fst colorRGB)),
     Int_part (snd (fst colorRGB)),
     Int_part (snd colorRGB)) in
  floorColorRGB.

(** The attributes of a [Game] that the event handling reads or
    writes. *)
Record Game : Type := mkGame {
  headless : bool;
  show_wind_magnitude : bool;
  show_wind_direction : bool
}.

(** The toggles return the changed game and the line they print. *)
Definition _toggle_wind_magnitude_display (self : Game) : Game * list string :=
  let self :=
    mkGame (headless self) (negb (show_wind_magnitude self))
           (show_wind_direction self) in
  if negb (show_wind_magnitude self)
  then (self, ["Wind Magnitude OFF"])
  else (self, ["Wind Magnitude ON"]).

Definition _toggle_wind_direction_display (self : Game) : Game * list string :=
  let self :=
    mkGame (headless self) (show_wind_magnitude self)
           (negb (show_wind_direction self)) in
  if negb (show_wind_direction self)
  then (self, ["Wind Direction OFF"])
  else (self, ["Wind Direction ON"]).

Definition _disable_wind_magnitude_display (self : Game) : Game :=
  mkGame (headless self) false (show_wind_direction self).

Definition _disable_wind_direction_display (self : Game) : Game :=
  mkGame (headless self) (show_wind_magnitude self) false.

(** What [update] looks at in an event of [pygame.event.get()]: its
    type and, for a key press, whether [pygame.key.get_pressed()] has the
    keys m and n down. *)
Inductive Event : Type :=
  | QuitEvent
  | KeyDown (k_m k_n : bool)
  | OtherEvent.

(** The body of the event loop of [update] for one event. *)
Definition handle_event (acc : GameStatus * Game * list string) (event : Event)
    : GameStatus * Game * list string :=
  let '(status, self, out) := acc in
  let status :=
    match event with
    | QuitEvent => QUIT
    | _ => status
    end in
  match event with
  | KeyDown k_m k_n =>
      let '(self, out) :=
        if k_m then
          let self := _disable_wind_direction_display self in
          let '(self, line) := _toggle_wind_magnitude_display self in
          (self, out ++ line)
        else (self, out) in
      let '(self, out) :=
        if k_n then
          let self := _disable_wind_magnitude_display self in
          let '(self, line) := _toggle_wind_direction_display self in
          (self, out ++ line)
        else (self, out) in
      (status, self, out)
  | _ => (status, self, out)
  end.

(** [update], as far as the game's own attributes and the returned
    status go: the events are read only when the game is not headless.
    Drawing the sprites and the wind surfaces changes neither. *)
Definition update (self : Game) (events : list Event)
    : GameStatus * Game * list string :=
  let status := RUNNING in
  if negb (headless self)
  then foldl handle_event (status, self, []) events
  else (status, self, []).

End Game.

(** * Properties *)

(** ** The float library functions on a few inputs *)

Lemma frac_part_below_one (x : R) : 0 <= x -> x < 1 -> frac_part x = x.
Proof.
  intros H0 H1. unfold frac_part, Int_part.
  rewrite <- (tech_up x 1) by lra.
  change (1 - 1)%Z with 0%Z. lra.
Qed.

Example pow_zero_zero : 0 ** 0 = 1.
Proof.
  unfold PyMath.pow.
  destruct (Req_dec_T (frac_part 0) 0) as [_ | Hf].
  - replace (Int_part 0) with 0%Z; [reflexivity |].
    unfold Int_part. rewrite <- (tech_up 0 1) by lra. reflexivity.
  - exfalso. apply Hf. apply frac_part_below_one; lra.
Qed.

Example pow_half_of_4 : 4 ** 0.5 = 2.
Proof.
  unfold PyMath.pow.
  destruct (Req_dec_T (frac_part 0.5) 0) as [Hf | _].
  - rewrite frac_part_below_one in Hf; lra.
  - destruct (Rlt_dec 0 4) as [_ | Hn]; [| lra].
    replace 0.5 with (/ 2) by lra.
    rewrite Rpower_sqrt by lra.
    replace 4 with (2 * 2) by lra. apply sqrt_square. lra.
Qed.

Example atan2_east : PyMath.atan2 0 1 = 0.
Proof.
  unfold PyMath.atan2. destruct (Rlt_dec 0 1); [| lra].
  replace (0 / 1) with 0 by field. apply atan_0.
Qed.

Example atan2_north : PyMath.atan2 1 0 = PI / 2.
Proof.
  unfold PyMath.atan2.
  destruct (Rlt_dec 0 0); [lra |].
  destruct (Rlt_dec 0 1); [reflexivity | lra].
Qed.

Example atan2_west : PyMath.atan2 0 (-1) = PI.
Proof.
  unfold PyMath.atan2.
  destruct (Rlt_dec 0 (-1)); [lra |].
  destruct (Rlt_dec (-1) 0); [| lra].
  destruct (Rle_dec 0 0); [| lra].
  replace (0 / -1) with 0 by field. rewrite atan_0. ring.
Qed.

(** ** Real-number facts used by the kernel proofs *)


Lemma damping_at_one : KernelSpec.moisture_damping 1 = 0.
Proof. unfold KernelSpec.moisture_damping. lra. Qed.




Lemma pow_pos_base (x y : R) : 0 < x -> 0 < x ** y.
Proof.
  intros Hx. unfold PyMath.pow.
  destruct (Req_dec_T (frac_part y) 0).
  - now apply powerRZ_lt.
  - destruct (Rlt_dec 0 x); [| contradiction].
    unfold Rpower. apply exp_pos.
Qed.

Lemma pow_zero_base (y : R) : 0 < y -> 0 ** y = 0.
Proof.
  intros Hy. unfold PyMath.pow.
  destruct (Req_dec_T (frac_part y) 0) as [Hf | Hf].
  - unfold frac_part in Hf.
    assert (Hy' : y = IZR (Int_part y)) by lra.
    assert (Hz : (0 < Int_part y)%Z).
    { apply lt_IZR. lra. }
    destruct (Int_part y) as [| p | p]; try lia.
    simpl. apply pow_i. apply Pos2Nat.is_pos.
  - destruct (Rlt_dec 0 0); [lra | reflexivity].
Qed.

Ltac kernel_unfold :=
  cbv beta iota zeta delta
    [Rothermel.compute_rate_of_spread Rothermel.locals
     Rothermel.R_floored Rothermel.R_raw Rothermel.phi_w Rothermel.phi_s
     Rothermel.U_clamped Rothermel.epsilon Rothermel.Q_ig Rothermel.I_R
     Rothermel.xi Rothermel.p_b Rothermel.B
     Rothermel.wind_along_angle_of_travel
     KernelSpec.final_rate KernelSpec.heating_number
     KernelSpec.preignition_heat KernelSpec.slope_factor].

(** ** The rate-of-spread kernel *)

Section Kernel.

Variables loc_x loc_y loc_z new_loc_x new_loc_y new_loc_z : R.
Variables w_0 delta M_x sigma h S_T S_e p_p M_f U U_dir : R.

(** C3: without wind and on flat ground the rate is the same for every
    placement of origin and target: two placements, each with its origin
    and its target at one elevation, give equal rates. *)
Theorem rate_of_spread_isotropic (x1 y1 x1' y1' z1 x2 y2 x2' y2' z2 : R) :
  Rothermel.compute_rate_of_spread
    x1 y1 z1 x1' y1' z1 w_0 delta M_x sigma h S_T S_e p_p M_f 0 U_dir
  = Rothermel.compute_rate_of_spread
      x2 y2 z2 x2' y2' z2 w_0 delta M_x sigma h S_T S_e p_p M_f 0 U_dir.
Proof.
  kernel_unfold.
  rewrite !Rmult_0_l.
  replace (z1 - z1) with 0 by ring.
  replace (z2 - z2) with 0 by ring.
  reflexivity.
Qed.

(** C4: the wind speed is projected on the direction of travel with the
    cosine of the angle between the wind bearing [radians(90 - U_dir)]
    and the bearing of travel [atan2(loc_y - new_loc_y, new_loc_x -
    loc_x)] (the y axis flipped), and the wind factor is computed from
    the projection clamped at 0: [max(projection, 0)].  A projection that
    is not negative is kept as it is.  A negative one (a headwind) becomes
    0: the wind factor is then the one of wind speed 0, its speed term
    is 0 for a positive surface-to-volume ratio, and the rate is the rate
    at wind speed 0. *)
Theorem wind_projection_is_clamped :
  let l := Rothermel.locals loc_x loc_y loc_z new_loc_x new_loc_y new_loc_z
                            w_0 delta M_x sigma h S_T S_e p_p M_f U U_dir in
  let l0 := Rothermel.locals loc_x loc_y loc_z new_loc_x new_loc_y new_loc_z
                             w_0 delta M_x sigma h S_T S_e p_p M_f 0 U_dir in
  let projection :=
    U * cos (PyMath.radians (90 - U_dir)
             - PyMath.atan2 (loc_y - new_loc_y) (new_loc_x - loc_x)) in
  Rothermel.wind_along_angle_of_travel l = projection
  /\ Rothermel.U_clamped l = Rmax projection 0
  /\ Rothermel.phi_w l
     = Rothermel.c l * Rothermel.U_clamped l ** Rothermel.b l
       * (Rothermel.B l / Rothermel.B_op l) ** (- Rothermel.e l)
  /\ (0 <= projection -> Rothermel.U_clamped l = projection)
  /\ (projection < 0 ->
      Rothermel.U_clamped l = 0
      /\ Rothermel.phi_w l = Rothermel.phi_w l0
      /\ (0 < sigma -> Rothermel.U_clamped l ** Rothermel.b l = 0)
      /\ Rothermel.compute_rate_of_spread
           loc_x loc_y loc_z new_loc_x new_loc_y new_loc_z
           w_0 delta M_x sigma h S_T S_e p_p M_f U U_dir
         = Rothermel.compute_rate_of_spread
             loc_x loc_y loc_z new_loc_x new_loc_y new_loc_z
             w_0 delta M_x sigma h S_T S_e p_p M_f 0 U_dir).
Proof.
  intros l l0 projection.
  split; [reflexivity |]. split; [reflexivity |]. split; [reflexivity |].
  split.
  - intros Hp. unfold l, projection in *. kernel_unfold.
    now apply Rmax_left.
  - intros Hp.
    assert (Hc : Rothermel.U_clamped l = 0).
    { unfold l, projection in *. kernel_unfold. apply Rmax_right. lra. }
    assert (Hc0 : Rothermel.U_clamped l0 = 0).
    { unfold l0. kernel_unfold. rewrite Rmult_0_l. apply Rmax_left. lra. }
    split; [exact Hc |]. split; [| split].
    + change (Rothermel.phi_w l)
        with (Rothermel.c l * Rothermel.U_clamped l ** Rothermel.b l
              * (Rothermel.B l / Rothermel.B_op l) ** (- Rothermel.e l)).
      change (Rothermel.phi_w l0)
        with (Rothermel.c l0 * Rothermel.U_clamped l0 ** Rothermel.b l0
              * (Rothermel.B l0 / Rothermel.B_op l0) ** (- Rothermel.e l0)).
      rewrite Hc, Hc0. reflexivity.
    + intros Hs. rewrite Hc. apply pow_zero_base.
      unfold l. cbn [Rothermel.b Rothermel.locals].
      apply Rmult_lt_0_compat; [lra | now apply pow_pos_base].
    + unfold l, l0, projection in *. kernel_unfold.
      match type of Hp with
      | ?p < 0 => rewrite (Rmax_right p 0) by lra
      end.
      rewrite Rmult_0_l, (Rmax_left 0 0) by lra. reflexivity.
Qed.

(** C5: the slope factor is 5.275 times the packing ratio to the power
    -0.3 times the square of the elevation difference, and exchanging the
    two elevations leaves the rate unchanged. *)
Theorem slope_factor_ignores_sign :
  Rothermel.phi_s
    (Rothermel.locals loc_x loc_y loc_z new_loc_x new_loc_y new_loc_z
                      w_0 delta M_x sigma h S_T S_e p_p M_f U U_dir)
  = KernelSpec.slope_factor (w_0 / delta / p_p) loc_z new_loc_z
  /\ Rothermel.compute_rate_of_spread
       loc_x loc_y new_loc_z new_loc_x new_loc_y loc_z
       w_0 delta M_x sigma h S_T S_e p_p M_f U U_dir
     = Rothermel.compute_rate_of_spread
         loc_x loc_y loc_z new_loc_x new_loc_y new_loc_z
         w_0 delta M_x sigma h S_T S_e p_p M_f U U_dir.
Proof.
  split; [reflexivity |].
  kernel_unfold.
  replace ((loc_z - new_loc_z) ^ 2) with ((new_loc_z - loc_z) ^ 2) by ring.
  reflexivity.
Qed.

(** C6: the returned rate is reaction intensity times propagating flux
    ratio times (1 + wind factor + slope factor), divided by bulk density
    times effective heating number times heat of preignition, floored at
    0; the heating number is exp(-138/sigma) and the heat of preignition is
    250 + 1116 times the moisture fraction. *)
Theorem final_rate_formula :
  let l := Rothermel.locals loc_x loc_y loc_z new_loc_x new_loc_y new_loc_z
                            w_0 delta M_x sigma h S_T S_e p_p M_f U U_dir in
  Rothermel.compute_rate_of_spread
    loc_x loc_y loc_z new_loc_x new_loc_y new_loc_z
    w_0 delta M_x sigma h S_T S_e p_p M_f U U_dir
  = KernelSpec.final_rate
      (Rothermel.I_R l) (Rothermel.xi l) (Rothermel.phi_w l)
      (Rothermel.phi_s l) (Rothermel.p_b l) sigma M_f
  /\ Rothermel.epsilon l = KernelSpec.heating_number sigma
  /\ Rothermel.Q_ig l = KernelSpec.preignition_heat M_f.
Proof. intros l. repeat split. Qed.

End Kernel.

(** Travel due east against a wind blowing towards the west
    (direction 270): the projected wind is [-176]. *)
Lemma westward_wind_projection :
  176 * cos (PyMath.radians (90 - 270) - PyMath.atan2 (0 - 0) (1 - 0)) < 0.
Proof.
  unfold PyMath.atan2, PyMath.radians.
  destruct (Rlt_dec 0 (1 - 0)) as [_ | Hn]; [| lra].
  replace ((0 - 0) / (1 - 0)) with 0 by field.
  rewrite atan_0.
  replace ((90 - 270) * (PI / 180) - 0) with (- PI) by field.
  rewrite cos_neg, cos_PI. lra.
Qed.

(** Travel due east with a wind blowing towards the east
    (direction 90): the projected wind is the wind speed. *)
Lemma eastward_wind_projection :
  176 * cos (PyMath.radians (90 - 90) - PyMath.atan2 (0 - 0) (1 - 0)) = 176.
Proof.
  unfold PyMath.atan2, PyMath.radians.
  destruct (Rlt_dec 0 (1 - 0)) as [_ | Hn]; [| lra].
  replace ((0 - 0) / (1 - 0)) with 0 by field.
  rewrite atan_0.
  replace ((90 - 90) * (PI / 180) - 0) with 0 by field.
  rewrite cos_0. lra.
Qed.

(** Witness of C4: due east against a westward wind the clamped speed is
    0 and the rate is the rate without wind; due east with an eastward
    wind the clamped speed is the wind speed. *)
Lemma wind_projection_is_clamped_witness :
  (Rothermel.U_clamped
     (Rothermel.locals 0 0 0 1 0 0 0.23 6 0.2 1739 8000 0.0555 0.01 32
                       0.03 176 270) = 0
   /\ Rothermel.compute_rate_of_spread
        0 0 0 1 0 0 0.23 6 0.2 1739 8000 0.0555 0.01 32 0.03 176 270
      = Rothermel.compute_rate_of_spread
          0 0 0 1 0 0 0.23 6 0.2 1739 8000 0.0555 0.01 32 0.03 0 270)
  /\ Rothermel.U_clamped
       (Rothermel.locals 0 0 0 1 0 0 0.23 6 0.2 1739 8000 0.0555 0.01 32
                         0.03 176 90) = 176.
Proof.
  split.
  - pose proof (wind_projection_is_clamped
                  0 0 0 1 0 0 0.23 6 0.2 1739 8000 0.0555 0.01 32 0.03 176 270)
      as H.
    cbv zeta in H. destruct H as (_ & _ & _ & _ & Hhead).
    destruct (Hhead westward_wind_projection) as (Hc & _ & _ & Hr).
    split; assumption.
  - pose proof (wind_projection_is_clamped
                  0 0 0 1 0 0 0.23 6 0.2 1739 8000 0.0555 0.01 32 0.03 176 90)
      as H.
    cbv zeta in H. destruct H as (_ & _ & _ & Htail & _).
    rewrite Htail; [apply eastward_wind_projection |].
    rewrite eastward_wind_projection. lra.
Defined.

(** ** The kernel on infinities and NaN *)


Lemma ieee_div_of_zero (x y : IEEE.float) :
  x = IEEE.NaN \/ x = IEEE.Fin 0 ->
  IEEE.div x y = IEEE.NaN \/ IEEE.div x y = IEEE.Fin 0.
Proof.
  intros [-> | ->]; destruct y as [| | | r]; simpl; auto.
  destruct (decide (r = 0)).
  - destruct (decide (0 = 0)); [auto | contradiction].
  - right. f_equal. unfold Rdiv. apply Rmult_0_l.
Qed.

Lemma ieee_mul_of_zero_l (x y : IEEE.float) :
  x = IEEE.NaN \/ x = IEEE.Fin 0 ->
  IEEE.mul x y = IEEE.NaN \/ IEEE.mul x y = IEEE.Fin 0.
Proof.
  intros [-> | ->]; destruct y as [| | | r]; simpl; auto;
    unfold IEEE.inf_times;
    try (destruct (decide (0 = 0)); [auto | contradiction]).
  right. f_equal. apply Rmult_0_l.
Qed.

Lemma ieee_mul_of_zero_r (x y : IEEE.float) :
  y = IEEE.NaN \/ y = IEEE.Fin 0 ->
  IEEE.mul x y = IEEE.NaN \/ IEEE.mul x y = IEEE.Fin 0.
Proof.
  intros [-> | ->]; destruct x as [| | | r]; simpl; auto;
    unfold IEEE.inf_times;
    try (destruct (decide (0 = 0)); [auto | contradiction]).
  right. f_equal. apply Rmult_0_r.
Qed.

Lemma ieee_pow_of_zero (x : IEEE.float) (b : R) :
  x = IEEE.NaN \/ x = IEEE.Fin 0 ->
  (b < 0 ->
   IEEE.pow x (IEEE.Fin b) = IEEE.NaN \/ IEEE.pow x (IEEE.Fin b) = IEEE.PInf)
  /\ (0 < b ->
      IEEE.pow x (IEEE.Fin b) = IEEE.NaN
      \/ IEEE.pow x (IEEE.Fin b) = IEEE.Fin 0).
Proof.
  intros Hx. split; intros Hb; unfold IEEE.pow;
    (destruct (decide (b = 0)); [lra |]);
    destruct Hx as [-> | ->]; auto;
    (destruct (decide (0 = 0)); [| contradiction]);
    destruct (decide (0 < b)); auto; lra.
Qed.


Lemma ieee_mul_pos_inf (a : R) (y : IEEE.float) :
  0 < a ->
  y = IEEE.NaN \/ y = IEEE.PInf ->
  IEEE.mul (IEEE.Fin a) y = IEEE.NaN \/ IEEE.mul (IEEE.Fin a) y = IEEE.PInf.
Proof.
  intros Ha [-> | ->]; simpl; auto.
  unfold IEEE.inf_times.
  destruct (decide (a = 0)); [lra |].
  destruct (decide (0 < a)); [auto | lra].
Qed.

Lemma ieee_mul_inf_square (x d : IEEE.float) :
  x = IEEE.NaN \/ x = IEEE.PInf ->
  IEEE.mul x (IEEE.mul d d) = IEEE.NaN
  \/ IEEE.mul x (IEEE.mul d d) = IEEE.PInf.
Proof.
  intros [-> | ->]; [now left |].
  destruct d as [| | | r]; simpl; auto.
  unfold IEEE.inf_times.
  destruct (decide (r * r = 0)); [auto |].
  destruct (decide (0 < r * r)); [auto |].
  pose proof (Rle_0_sqr r) as Hsq. unfold Rsqr in Hsq. lra.
Qed.

Lemma ieee_add_inf_r (x y : IEEE.float) :
  y = IEEE.NaN \/ y = IEEE.PInf ->
  IEEE.add x y = IEEE.NaN \/ IEEE.add x y = IEEE.PInf.
Proof. intros [-> | ->]; destruct x; simpl; auto. Qed.

Lemma ieee_mul_zero_inf (x y : IEEE.float) :
  x = IEEE.NaN \/ x = IEEE.Fin 0 ->
  y = IEEE.NaN \/ y = IEEE.PInf ->
  IEEE.mul x y = IEEE.NaN.
Proof.
  intros [-> | ->] [-> | ->]; simpl; try reflexivity.
  unfold IEEE.inf_times. destruct (decide (0 = 0)); [reflexivity | contradiction].
Qed.

(** The floor [max(R, 0)]: what it returns is NaN or at least 0. *)
Lemma ieee_max_zero (x : IEEE.float) :
  ~ IEEE.lt (IEEE.max x (IEEE.Fin 0)) (IEEE.Fin 0)
  /\ (IEEE.max x (IEEE.Fin 0) = IEEE.NaN
      \/ IEEE.le (IEEE.Fin 0) (IEEE.max x (IEEE.Fin 0))).
Proof.
  unfold IEEE.max.
  destruct (decide (IEEE.lt x (IEEE.Fin 0))) as [Hlt | Hlt].
  - simpl. split; [lra | right; lra].
  - split; [exact Hlt |].
    destruct x as [| | | r]; simpl in *; auto.
    right. lra.
Qed.

(** With a fuel load of 0 the kernel returns NaN, whatever the other
    arguments: the packing ratio is 0 or NaN, its power -0.3 in the slope
    factor is infinite or NaN, and the reaction intensity is 0 or NaN. *)
Lemma rate_of_zero_fuel_load
    (loc_x loc_y loc_z new_loc_x new_loc_y new_loc_z
     delta M_x sigma h S_T S_e p_p M_f U U_dir : IEEE.float) :
  RothermelIEEE.compute_rate_of_spread
    loc_x loc_y loc_z new_loc_x new_loc_y new_loc_z
    (IEEE.Fin 0) delta M_x sigma h S_T S_e p_p M_f U U_dir = IEEE.NaN.
Proof.
  unfold RothermelIEEE.compute_rate_of_spread. cbv zeta.
  assert (HB : IEEE.div (IEEE.div (IEEE.Fin 0) delta) p_p = IEEE.NaN
               \/ IEEE.div (IEEE.div (IEEE.Fin 0) delta) p_p = IEEE.Fin 0).
  { apply ieee_div_of_zero, ieee_div_of_zero. now right. }
  match goal with
  | |- IEEE.max (IEEE.div (IEEE.mul (IEEE.mul ?I ?x) (IEEE.add ?a ?s)) ?D) _ = _ =>
      assert (Hn : IEEE.mul (IEEE.mul I x) (IEEE.add a s) = IEEE.NaN)
  end.
  { apply ieee_mul_zero_inf.
    - do 4 apply ieee_mul_of_zero_l. apply ieee_mul_of_zero_r.
      apply ieee_mul_of_zero_l. now right.
    - apply ieee_add_inf_r, ieee_mul_inf_square.
      apply ieee_mul_pos_inf; [lra |].
      apply (ieee_pow_of_zero _ (-0.3) HB). lra. }
  rewrite Hn. reflexivity.
Qed.


Lemma pow_exponent_zero (x : R) : x ** 0 = 1.
Proof.
  unfold PyMath.pow.
  assert (Hi : Int_part 0 = 0%Z).
  { pose proof (base_Int_part 0) as [H1 H2].
    assert (Ha : IZR (Int_part 0) < 1) by lra.
    assert (Hb : -1 < IZR (Int_part 0)) by lra.
    apply lt_IZR in Ha. apply lt_IZR in Hb. lia. }
  destruct (Req_dec_T (frac_part 0) 0) as [_ | Hf].
  - rewrite Hi. reflexivity.
  - exfalso. apply Hf. unfold frac_part. rewrite Hi. lra.
Qed.

Lemma ieee_div_fin (a b : R) :
  b <> 0 -> IEEE.div (IEEE.Fin a) (IEEE.Fin b) = IEEE.Fin (a / b).
Proof. intros Hb. simpl. destruct (decide (b = 0)); [contradiction | reflexivity]. Qed.

Lemma ieee_pow_fin_pos (a b : R) :
  0 < a -> IEEE.pow (IEEE.Fin a) (IEEE.Fin b) = IEEE.Fin (a ** b).
Proof.
  intros Ha. unfold IEEE.pow.
  destruct (decide (b = 0)) as [-> | Hb].
  - now rewrite pow_exponent_zero.
  - destruct (decide (a = 0)); [lra |].
    destruct (decide (a < 0 /\ frac_part b <> 0)) as [[Hn _] | _]; [lra |].
    reflexivity.
Qed.

Lemma ieee_pow_fin_nonneg (a b : R) :
  0 <= a -> 0 < b -> IEEE.pow (IEEE.Fin a) (IEEE.Fin b) = IEEE.Fin (a ** b).
Proof.
  intros [Ha | <-] Hb; [now apply ieee_pow_fin_pos |].
  unfold IEEE.pow.
  destruct (decide (b = 0)); [lra |].
  destruct (decide (0 = 0)); [| contradiction].
  destruct (decide (0 < b)); [| contradiction].
  now rewrite pow_zero_base.
Qed.

Lemma ieee_min_fin (a b : R) :
  IEEE.min (IEEE.Fin a) (IEEE.Fin b) = IEEE.Fin (Rmin a b).
Proof.
  unfold IEEE.min, Rmin. simpl.
  destruct (decide (b < a)), (Rle_dec a b); try reflexivity; lra.
Qed.

Lemma ieee_max_fin (a b : R) :
  IEEE.max (IEEE.Fin a) (IEEE.Fin b) = IEEE.Fin (Rmax a b).
Proof.
  unfold IEEE.max, Rmax. simpl.
  destruct (decide (a < b)), (Rle_dec a b); try reflexivity; try lra.
  f_equal. lra.
Qed.

Lemma ieee_add_fin (a b : R) :
  IEEE.add (IEEE.Fin a) (IEEE.Fin b) = IEEE.Fin (a + b).
Proof. reflexivity. Qed.

Lemma ieee_sub_fin (a b : R) :
  IEEE.sub (IEEE.Fin a) (IEEE.Fin b) = IEEE.Fin (a - b).
Proof. reflexivity. Qed.

Lemma ieee_opp_fin (a : R) : IEEE.opp (IEEE.Fin a) = IEEE.Fin (- a).
Proof. reflexivity. Qed.

Lemma ieee_mul_fin (a b : R) :
  IEEE.mul (IEEE.Fin a) (IEEE.Fin b) = IEEE.Fin (a * b).
Proof. reflexivity. Qed.

Lemma ieee_exp_fin (a : R) : IEEE.exp (IEEE.Fin a) = IEEE.Fin (exp a).
Proof. reflexivity. Qed.

Lemma ieee_cos_fin (a : R) : IEEE.cos (IEEE.Fin a) = IEEE.Fin (cos a).
Proof. reflexivity. Qed.

Lemma ieee_radians_fin (a : R) :
  IEEE.radians (IEEE.Fin a) = IEEE.Fin (PyMath.radians a).
Proof. reflexivity. Qed.

Lemma ieee_atan2_fin (a b : R) :
  IEEE.atan2 (IEEE.Fin a) (IEEE.Fin b) = IEEE.Fin (PyMath.atan2 a b).
Proof. reflexivity. Qed.

Ltac ieee_side :=
  first [ assumption | lra | apply Rmax_r
        | apply Rgt_not_eq; first [assumption | lra] ].

Ltac ieee_finite :=
  repeat first
    [ rewrite ieee_add_fin | rewrite ieee_sub_fin | rewrite ieee_opp_fin
    | rewrite ieee_mul_fin | rewrite ieee_exp_fin | rewrite ieee_cos_fin
    | rewrite ieee_radians_fin | rewrite ieee_atan2_fin
    | rewrite ieee_min_fin | rewrite ieee_max_fin
    | rewrite ieee_div_fin by ieee_side
    | rewrite ieee_pow_fin_pos by ieee_side
    | rewrite ieee_pow_fin_nonneg by ieee_side ].

(** On a fuel bed with positive load, depth, particle density,
    surface-to-volume ratio and effective mineral content, a non-zero
    moisture of extinction and a moisture that is not negative, no
    operation of the kernel leaves the finite values: the reading with
    special values returns the value of the real-number reading. *)
Lemma kernel_readings_agree
    (loc_x loc_y loc_z new_loc_x new_loc_y new_loc_z
     w_0 delta M_x sigma h S_T S_e p_p M_f U U_dir : R) :
  0 < w_0 -> 0 < delta -> 0 < p_p -> 0 < sigma -> 0 < S_e ->
  M_x <> 0 -> 0 <= M_f ->
  RothermelIEEE.compute_rate_of_spread
    (IEEE.Fin loc_x) (IEEE.Fin loc_y) (IEEE.Fin loc_z)
    (IEEE.Fin new_loc_x) (IEEE.Fin new_loc_y) (IEEE.Fin new_loc_z)
    (IEEE.Fin w_0) (IEEE.Fin delta) (IEEE.Fin M_x) (IEEE.Fin sigma)
    (IEEE.Fin h) (IEEE.Fin S_T) (IEEE.Fin S_e) (IEEE.Fin p_p)
    (IEEE.Fin M_f) (IEEE.Fin U) (IEEE.Fin U_dir)
  = IEEE.Fin (Rothermel.compute_rate_of_spread
                loc_x loc_y loc_z new_loc_x new_loc_y new_loc_z
                w_0 delta M_x sigma h S_T S_e p_p M_f U U_dir).
Proof.
  intros Hw Hd Hp Hs HSe HMx HMf.
  assert (Hpb : 0 < w_0 / delta) by (apply Rdiv_lt_0_compat; lra).
  assert (HB : 0 < w_0 / delta / p_p) by (apply Rdiv_lt_0_compat; lra).
  assert (Hs1 : 0 < sigma ** 1.5) by now apply pow_pos_base.
  assert (Hs2 : 0 < sigma ** (-0.8189)) by now apply pow_pos_base.
  assert (Hs3 : 0 < sigma ** 0.54) by now apply pow_pos_base.
  assert (HBop : 0 < 3.348 * sigma ** (-0.8189)) by lra.
  assert (Hratio : 0 < w_0 / delta / p_p / (3.348 * sigma ** (-0.8189)))
    by now apply Rdiv_lt_0_compat.
  assert (H495 : 0 < 495 + 0.0594 * sigma ** 1.5) by lra.
  assert (Hb : 0 < 0.02526 * sigma ** 0.54) by lra.
  assert (Hden : 0 < w_0 / delta * exp (-138 / sigma) * (250 + 1116 * M_f)).
  { apply Rmult_lt_0_compat; [apply Rmult_lt_0_compat |].
    - exact Hpb.
    - apply exp_pos.
    - lra. }
  unfold RothermelIEEE.compute_rate_of_spread. cbv zeta.
  kernel_unfold.
  ieee_finite.
  replace (Rmin (M_f / M_x) 1 * Rmin (M_f / M_x) 1 * Rmin (M_f / M_x) 1)
    with (Rmin (M_f / M_x) 1 ^ 3) by ring.
  replace (Rmin (M_f / M_x) 1 * Rmin (M_f / M_x) 1)
    with (Rmin (M_f / M_x) 1 ^ 2) by ring.
  replace ((new_loc_z - loc_z) * (new_loc_z - loc_z))
    with ((new_loc_z - loc_z) ^ 2) by ring.
  reflexivity.
Qed.

Section KernelIEEE.

Variables loc_x loc_y loc_z new_loc_x new_loc_y new_loc_z : IEEE.float.
Variables w_0 delta M_x sigma h S_T S_e p_p M_f U U_dir : IEEE.float.

(** C1, as the code has it: for every input, infinite and NaN arguments
    included, the rate that [compute_rate_of_spread] returns is never
    below 0: it is NaN, or it is greater than or equal to 0 (plus
    infinity included). *)
Theorem rate_of_spread_nonneg_or_nan :
  let rate :=
    RothermelIEEE.compute_rate_of_spread
      loc_x loc_y loc_z new_loc_x new_loc_y new_loc_z
      w_0 delta M_x sigma h S_T S_e p_p M_f U U_dir in
  ~ IEEE.lt rate (IEEE.Fin 0)
  /\ (rate = IEEE.NaN \/ IEEE.le (IEEE.Fin 0) rate).
Proof.
  intros rate. unfold rate, RothermelIEEE.compute_rate_of_spread.
  cbv zeta. apply ieee_max_zero.
Qed.


End KernelIEEE.

(** C1 as stated fails: with a fuel load of 0 on an otherwise
    chaparral-like fuel bed the returned rate is NaN, which is not
    greater than or equal to 0. *)
Lemma rate_of_spread_nan_at_zero_fuel_load :
  RothermelIEEE.compute_rate_of_spread
    (IEEE.Fin 0) (IEEE.Fin 0) (IEEE.Fin 0)
    (IEEE.Fin 1) (IEEE.Fin 0) (IEEE.Fin 0)
    (IEEE.Fin 0) (IEEE.Fin 6) (IEEE.Fin 0.2) (IEEE.Fin 1739)
    (IEEE.Fin 8000) (IEEE.Fin 0.0555) (IEEE.Fin 0.01) (IEEE.Fin 32)
    (IEEE.Fin 0.03) (IEEE.Fin 176) (IEEE.Fin 45) = IEEE.NaN
  /\ ~ IEEE.le (IEEE.Fin 0)
        (RothermelIEEE.compute_rate_of_spread
           (IEEE.Fin 0) (IEEE.Fin 0) (IEEE.Fin 0)
           (IEEE.Fin 1) (IEEE.Fin 0) (IEEE.Fin 0)
           (IEEE.Fin 0) (IEEE.Fin 6) (IEEE.Fin 0.2) (IEEE.Fin 1739)
           (IEEE.Fin 8000) (IEEE.Fin 0.0555) (IEEE.Fin 0.01) (IEEE.Fin 32)
           (IEEE.Fin 0.03) (IEEE.Fin 176) (IEEE.Fin 45)).
Proof.
  rewrite rate_of_zero_fuel_load. split; [reflexivity |]. simpl. tauto.
Qed.



(** ** The damping polynomial on the machine *)

(** C2 on the code: the cubic damping polynomial of the specification
    vanishes at the ratio 1, but the value the machine computes there,
    in binary64 and in the order the source writes the sum, is 2^-51 and
    not 0.  At or above the moisture of extinction the ratio is clamped
    to 1, so the damping coefficient the kernel multiplies into the
    reaction intensity is 2^-51 and the rate is not 0. *)
Theorem moisture_damping_at_one_in_binary64 :
  KernelSpec.moisture_damping 1 = 0
  /\ RothermelBinary64.eta_M RothermelBinary64.one
     = RothermelBinary64.two_pow_minus_51
  /\ PrimFloat.eqb (RothermelBinary64.eta_M RothermelBinary64.one)
                   RothermelBinary64.zero = false.
Proof. split; [exact damping_at_one |]. split; reflexivity. Qed.

(** ** The Perlin noise field *)

Import ElevationFunctions.

Lemma grid_coordinate_0 : frac_part (INR 0 * (INR 1 / INR 2)) = 0.
Proof. rewrite frac_part_below_one; simpl; lra. Qed.

Lemma grid_coordinate_1 : frac_part (INR 1 * (INR 1 / INR 2)) = 1 / 2.
Proof. rewrite frac_part_below_one; simpl; lra. Qed.

Lemma fade_0 : f 0 = 0.
Proof. unfold f. lra. Qed.

Lemma fade_half : f (1 / 2) = 1 / 2.
Proof. unfold f. lra. Qed.

Lemma angle_of_draw_0 : 2 * PI * 0 = 0.
Proof. ring. Qed.

Lemma angle_of_draw_quarter : 2 * PI * (1 / 4) = PI / 2.
Proof. field. Qed.

(** A shape with an empty axis divides by zero, and a shape that the
    resolution does not divide gives arrays that do not fit. *)
Example precompute_empty_axis (st : RandomState) :
  precompute (init 1 (0, 2)%nat (1, 1)%nat) st = None.
Proof. reflexivity. Qed.

Example precompute_shapes_do_not_fit (st : RandomState) :
  precompute (init 1 (3, 3)%nat (2, 2)%nat) st = None.
Proof.
  unfold precompute, init. cbn [shape res amplitude fst snd].
  rewrite decide_False by (cbn; lia).
  cbn [rand fst snd Nat.div Nat.divmod].
  rewrite decide_True by (cbn; lia). reflexivity.
Qed.

(** Runs [precompute] on a 2 by 2 field of resolution 1 by 1. *)
Ltac noise_eval :=
  unfold precompute, init;
  cbn [shape res amplitude fst snd];
  rewrite decide_False by (cbn; lia);
  cbn [rand Nat.add Nat.mul Nat.div Nat.divmod fst snd seq map mgrid_mod1
       List.map];
  rewrite decide_False by (cbn; lia);
  cbv beta iota zeta delta
    [rows_but_last rows_but_first cols_but_last cols_but_first removelast tl
     map List.map repeat_axis0 repeat_axis1 flat_map repeat app map2 map3
     zip_with dot fst snd np_min concat fold_left Np.ndarray];
  rewrite ?grid_coordinate_0, ?grid_coordinate_1, ?fade_0, ?fade_half,
          ?angle_of_draw_0, ?angle_of_draw_quarter,
          ?cos_0, ?sin_0, ?cos_PI2, ?sin_PI2.

(** Decides the nested minima of closed expressions in [sqrt 2]. *)
Ltac resolve_min :=
  let s := fresh "s" in
  let Hs := fresh "Hs" in
  pose proof (sqrt_lt_R0 2 ltac:(lra)) as Hs;
  revert Hs; generalize (sqrt 2); intros s Hs;
  unfold Rmin; repeat (destruct (Rle_dec _ _)); lra.

(** C8 on the code: two invocations of [precompute] on one and the same
    object (amplitude 1, shape 2 by 2, resolution 1 by 1) give different
    fields when the process-wide generator is in different states: all
    draws 0 in one, a first draw of 1/4 in the other.  The class has no
    seed with which a caller could make them agree. *)
Theorem precompute_not_reproducible :
  let self := init 1 (2, 2)%nat (1, 1)%nat in
  let field1 := [[0; 0]; [0; 0]] in
  let field2 := [[- sqrt 2 / 4; 0]; [- sqrt 2 / 2; - sqrt 2 / 4]] in
  precompute self (fun _ => 0)
  = Some (mkPerlinNoise2D 1 (2, 2)%nat (1, 1)%nat (Some field1), fun _ => 0)
  /\ precompute self (fun k => match k with O => 1 / 4 | S _ => 0 end)
     = Some (mkPerlinNoise2D 1 (2, 2)%nat (1, 1)%nat (Some field2), fun _ => 0)
  /\ field1 <> field2.
Proof.
  intros self field1 field2. subst self field1 field2.
  split; [| split].
  - noise_eval. repeat f_equal; resolve_min.
  - noise_eval. repeat f_equal; resolve_min.
  - intros Heq. injection Heq. intros.
    pose proof (sqrt_lt_R0 2 ltac:(lra)). lra.
Qed.

(** With the generator in one state, [precompute] is a function of the
    object: the only source of variation is the generator. *)
Lemma precompute_same_generator_state (p q : PerlinNoise2D) (st : RandomState) :
  amplitude p = amplitude q -> shape p = shape q -> res p = res q ->
  option_map (fun r => terrain_map (fst r)) (precompute p st)
  = option_map (fun r => terrain_map (fst r)) (precompute q st).
Proof.
  intros Ha Hs Hr. unfold precompute. rewrite Ha, Hs, Hr. reflexivity.
Qed.

(** ** Burn-status codes and the action space *)

Import Np Enums Simulation.

(** C9: the burn-status codes are 1 to 6 in definition order,
    [get_actions] maps 'none' to 1, 'fireline' to 4, 'scratchline' to 5
    and 'wetline' to 6, and no burn status has the value 0. *)
Theorem burn_status_codes :
  (value UNBURNED = 1 /\ value BURNING = 2 /\ value BURNED = 3
   /\ value FIRELINE = 4 /\ value SCRATCHLINE = 5 /\ value WETLINE = 6)%Z
  /\ value <$> get_actions
     = ({[ "none" := 1; "fireline" := 4; "scratchline" := 5;
           "wetline" := 6 ]}%Z : gmap string Z)
  /\ (forall s : BurnStatus, value s <> 0%Z)
  /\ of_value 0 = None.
Proof.
  split; [repeat split |]. split; [| split].
  - unfold get_actions.
    rewrite !fmap_insert, map_fmap_singleton. reflexivity.
  - intros s. destruct s; discriminate.
  - reflexivity.
Qed.

Example auto_numbering : auto [] = 1%Z /\ auto [1; 2]%Z = 3%Z.
Proof. split; reflexivity. Qed.

Example of_value_4 : of_value 4 = Some FIRELINE.
Proof. reflexivity. Qed.

(** The initial fire map of [run] holds the code of UNBURNED in every
    cell. *)
Lemma full_cells {A} (n m : nat) (v x : A) (row : list A) :
  In row (full n m v) -> In x row -> x = v.
Proof.
  unfold full. intros Hrow Hx.
  apply repeat_spec in Hrow. subst row.
  now apply repeat_spec in Hx.
Qed.

(** ** The headless simulation loop *)

Section RunLoop.

Context {FireManager Sprites : Type}.
Variable new_manager : FireManager.
Variable sprites : FireManager -> Sprites.
Variable update :
  FireManager -> ndarray Z -> ndarray Z * GameStatus * FireManager.

Lemma kth_update_0 (m : FireManager) (fm : ndarray Z) :
  kth_update update 0 m fm = fst (update m fm).
Proof.
  unfold kth_update. simpl.
  destruct (update m fm) as [[fm' st'] m']. reflexivity.
Qed.

Lemma kth_update_S (k : nat) (m : FireManager) (fm : ndarray Z) :
  kth_update update (S k) m fm
  = kth_update update k (snd (update m fm)) (fst (fst (update m fm))).
Proof.
  unfold kth_update. simpl.
  destruct (update m fm) as [[fm' st'] m']. reflexivity.
Qed.

(** The loop, entered while the status is RUNNING: if the first [n]
    updates answer RUNNING and the next one answers [s], the loop ends
    within [n + 2] evaluations of its condition, with the fire map when
    [s] is QUIT and with Python's [None] otherwise. *)
Lemma run_loop_exit (n : nat) :
  forall (fuel : nat) (self : RothermelSimulation)
         (fm : ndarray Z) (s : GameStatus),
    fire_status self = RUNNING ->
    (forall k, (k < n)%nat ->
               snd (kth_update update k (fire_manager self) (fire_map self))
               = RUNNING) ->
    kth_update update n (fire_manager self) (fire_map self) = (fm, s) ->
    s <> RUNNING ->
    (n + 2 <= fuel)%nat ->
    exists self' : RothermelSimulation,
      run_loop sprites update fuel self
      = Some (if decide (s = QUIT) then Returns (Some fm) else Returns None,
              self')
      /\ fire_status self' = s /\ fire_map self' = fm.
Proof.
  induction n as [| n IH]; intros fuel self fm s Hrun Hbefore Hlast Hs Hfuel.
  - destruct fuel as [| [| fuel]]; try lia.
    rewrite kth_update_0 in Hlast.
    cbn [run_loop]. rewrite decide_True by exact Hrun.
    destruct (update (fire_manager self) (fire_map self)) as [[fm1 s1] m1].
    simpl in Hlast. injection Hlast as -> ->.
    destruct (decide (s = QUIT)) as [Hq | Hq].
    + eexists. repeat split.
    + cbn [fire_status]. rewrite decide_False by exact Hs.
      eexists. repeat split.
  - destruct fuel as [| fuel]; try lia.
    pose proof (Hbefore 0%nat ltac:(lia)) as H0.
    rewrite kth_update_0 in H0.
    rewrite kth_update_S in Hlast.
    assert (Hbefore' :
              forall k, (k < n)%nat ->
                snd (kth_update update k
                       (snd (update (fire_manager self) (fire_map self)))
                       (fst (fst (update (fire_manager self) (fire_map self)))))
                = RUNNING).
    { intros k Hk. rewrite <- kth_update_S. apply Hbefore. lia. }
    cbn [run_loop]. rewrite decide_True by exact Hrun.
    destruct (update (fire_manager self) (fire_map self)) as [[fm1 s1] m1].
    simpl in H0, Hlast, Hbefore'. subst s1.
    rewrite decide_False by discriminate.
    apply IH; try assumption; try reflexivity. lia.
Qed.

(** Whatever the manager does, the loop hands back a fire map only from
    the [return] under the QUIT test. *)
Lemma run_loop_fire_map_needs_quit (fuel : nat) :
  forall (self self' : RothermelSimulation) (fm : ndarray Z),
    run_loop sprites update fuel self = Some (Returns (Some fm), self') ->
    fire_status self' = QUIT /\ fire_map self' = fm.
Proof.
  induction fuel as [| fuel IH]; intros self self' fm Hrun; [discriminate |].
  cbn [run_loop] in Hrun.
  destruct (decide (fire_status self = RUNNING)); [| discriminate].
  destruct (update (fire_manager self) (fire_map self)) as [[fm1 s1] m1].
  destruct (decide (s1 = QUIT)) as [Hq | Hq].
  - injection Hrun as <- <-. split; [exact Hq | reflexivity].
  - now apply IH in Hrun.
Qed.

End RunLoop.

(** With [mitigation] set, [run] raises before it reaches the loop. *)
Example run_with_mitigation_raises
    (self : @RothermelSimulation nat unit) (state : ndarray Z) (fuel : nat) :
  fst <$> run 0%nat (fun _ => tt) (fun m fm => (fm, QUIT, m)) fuel self state true
  = Some (Raises "TypeError").
Proof. reflexivity. Qed.

(** C10: [run] without mitigation starts the loop on a fresh manager and
    an all-UNBURNED map.  If the first [n] updates answer RUNNING and the
    next answers a status [s] other than RUNNING, [run] ends, and what it
    returns is the fire map of that update when [s] is QUIT and Python's
    [None] for every other [s]. *)
Theorem run_returns_fire_map_only_on_quit
    {FireManager Sprites : Type}
    (new_manager : FireManager) (sprites : FireManager -> Sprites)
    (update : FireManager -> ndarray Z -> ndarray Z * GameStatus * FireManager)
    (self : RothermelSimulation) (mitigation_state : ndarray Z)
    (n fuel : nat) (fm : ndarray Z) (s : GameStatus) :
  let fm0 := full (screen_size self) (screen_size self) (value UNBURNED) in
  (forall k, (k < n)%nat ->
             snd (kth_update update k new_manager fm0) = RUNNING) ->
  kth_update update n new_manager fm0 = (fm, s) ->
  s <> RUNNING ->
  (n + 2 <= fuel)%nat ->
  exists self' : RothermelSimulation,
    run new_manager sprites update fuel self mitigation_state false
    = Some (if decide (s = QUIT) then Returns (Some fm) else Returns None,
            self')
    /\ fire_status self' = s /\ fire_map self' = fm.
Proof.
  intros fm0 Hbefore Hlast Hs Hfuel. unfold run.
  apply (run_loop_exit sprites update n); try assumption; reflexivity.
Qed.

(** Witness of C10: a manager that counts its updates and burns out at
    the third one.  [run] returns Python's [None]. *)
Lemma run_returns_fire_map_only_on_quit_witness :
  exists self' : @RothermelSimulation nat unit,
    run 0%nat (fun _ => tt)
        (fun m fm => (fm, if (m <? 2)%nat then RUNNING else BURNED_OUT, S m))
        4 (mkRothermelSimulation 1 QUIT 7%nat tt []) [] false
    = Some (Returns None, self')
    /\ fire_status self' = BURNED_OUT /\ fire_map self' = [[1%Z]].
Proof.
  apply (run_returns_fire_map_only_on_quit
           0%nat (fun _ => tt)
           (fun m fm => (fm, if (m <? 2)%nat then RUNNING else BURNED_OUT, S m))
           (mkRothermelSimulation 1 QUIT 7%nat tt []) [] 2 4
           [[1%Z]] BURNED_OUT).
  - intros k Hk. destruct k as [| [| k]]; [reflexivity | reflexivity | lia].
  - reflexivity.
  - discriminate.
  - lia.
Defined.

(** * Further properties of the kernel *)

Lemma Rinv_nonneg (x : R) : 0 <= x -> 0 <= / x.
Proof.
  intros [Hx | <-].
  - left. now apply Rinv_0_lt_compat.
  - rewrite Rinv_0. lra.
Qed.




Lemma atan2_scale (k y x : R) :
  0 < k -> PyMath.atan2 (k * y) (k * x) = PyMath.atan2 y x.
Proof.
  intros Hk. unfold PyMath.atan2.
  assert (Hq : x <> 0 -> k * y / (k * x) = y / x) by (intros; field; lra).
  destruct (Rlt_dec 0 x) as [Hx | Hx].
  - destruct (Rlt_dec 0 (k * x)) as [_ | Hn]; [| nra].
    rewrite Hq by lra. reflexivity.
  - destruct (Rlt_dec 0 (k * x)) as [Hp | _]; [nra |].
    destruct (Rlt_dec x 0) as [Hx' | Hx'].
    + destruct (Rlt_dec (k * x) 0) as [_ | Hn]; [| nra].
      rewrite Hq by lra.
      destruct (Rle_dec 0 y), (Rle_dec 0 (k * y)); try reflexivity; nra.
    + destruct (Rlt_dec (k * x) 0) as [Hn | _]; [nra |].
      destruct (Rlt_dec 0 y), (Rlt_dec 0 (k * y)); try reflexivity; try nra.
      destruct (Rlt_dec y 0), (Rlt_dec (k * y) 0); try reflexivity; nra.
Qed.



Section KernelFurther.

Variables loc_x loc_y loc_z new_loc_x new_loc_y new_loc_z : R.
Variables w_0 delta M_x sigma h S_T S_e p_p M_f U U_dir : R.

(** The two positions enter the rate through the direction of the
    horizontal displacement only: a second pair of positions whose
    displacement is a positive multiple of the first gives the same rate.
    In particular the rate does not change when both points are moved
    together or when the target is moved further away along the same
    direction. *)
Theorem rate_depends_on_direction_only (x1 y1 x1' y1' x2 y2 x2' y2' k : R) :
  0 < k ->
  x2' - x2 = k * (x1' - x1) ->
  y2' - y2 = k * (y1' - y1) ->
  Rothermel.compute_rate_of_spread
    x2 y2 loc_z x2' y2' new_loc_z
    w_0 delta M_x sigma h S_T S_e p_p M_f U U_dir
  = Rothermel.compute_rate_of_spread
      x1 y1 loc_z x1' y1' new_loc_z
      w_0 delta M_x sigma h S_T S_e p_p M_f U U_dir.
Proof.
  intros Hk Hx Hy. kernel_unfold.
  replace (y2 - y2') with (k * (y1 - y1')) by lra.
  rewrite Hx, atan2_scale by exact Hk. reflexivity.
Qed.

End KernelFurther.



Section KernelMonotone.

Variables loc_x loc_y loc_z new_loc_x new_loc_y new_loc_z : R.
Variables w_0 delta M_x sigma h S_T S_e p_p M_f U U_dir : R.




End KernelMonotone.

(** Witnesses on a chaparral-like fuel bed. *)
Lemma rate_depends_on_direction_only_witness :
  Rothermel.compute_rate_of_spread
    5 5 0 7 7 3 0.23 6 0.2 1739 8000 0.0555 0.01 32 0.03 176 45
  = Rothermel.compute_rate_of_spread
      0 0 0 1 1 3 0.23 6 0.2 1739 8000 0.0555 0.01 32 0.03 176 45.
Proof.
  apply (rate_depends_on_direction_only
           0 3 0.23 6 0.2 1739 8000 0.0555 0.01 32 0.03 176 45
           0 0 1 1 5 5 7 7 2); lra.
Defined.




(** ** Elevation functions *)

Lemma exp_neg_le_1 (t : R) : 0 <= t -> exp (- t) <= 1.
Proof.
  intros [Ht | <-].
  - left. rewrite <- exp_0. apply exp_increasing. lra.
  - rewrite Ropp_0, exp_0. lra.
Qed.

Lemma four_sq_zero (s : R) : 4 * s ^ 2 = 0 <-> s = 0.
Proof. split; [nra | intros ->; lra]. Qed.

(** On the reals, where no square overflows, the closure returns as soon
    as both sigmas are different from 0. *)
Lemma gaussian_value (amplitude mu_x mu_y sigma_x sigma_y x y : R) :
  sigma_x <> 0 -> sigma_y <> 0 ->
  gaussian amplitude mu_x mu_y sigma_x sigma_y x y
  = Returns (amplitude
             * exp (- ((x - mu_x) ^ 2 / (4 * sigma_x ^ 2)
                       + (y - mu_y) ^ 2 / (4 * sigma_y ^ 2)))).
Proof.
  intros Hx Hy. unfold gaussian.
  rewrite !decide_False by (rewrite four_sq_zero; assumption).
  reflexivity.
Qed.

Lemma gaussian_exponent_nonneg (u v sx sy : R) :
  0 <= u ^ 2 / (4 * sx ^ 2) + v ^ 2 / (4 * sy ^ 2).
Proof.
  apply Rplus_le_le_0_compat; apply Rmult_le_pos;
    try apply pow2_ge_0; apply Rinv_nonneg;
    (apply Rmult_le_pos; [lra | apply pow2_ge_0]).
Qed.

(** A zero [sigma_x] or [sigma_y] leaves no call of the closure that
    returns: whatever the point, the call ends in an exception. *)
Theorem gaussian_zero_sigma_never_returns
    (amplitude mu_x mu_y sigma_x sigma_y x y : R) :
  sigma_x = 0 \/ sigma_y = 0 ->
  forall z : R,
    gaussian amplitude mu_x mu_y sigma_x sigma_y x y <> Returns z.
Proof.
  intros Hs z. unfold gaussian.
  destruct (decide (4 * sigma_x ^ 2 = 0)) as [_ | Hx]; [discriminate |].
  destruct (decide (4 * sigma_y ^ 2 = 0)) as [_ | Hy]; [discriminate |].
  exfalso. destruct Hs as [-> | ->]; [apply Hx | apply Hy]; lra.
Qed.

(** A value that the closure returns is never of larger magnitude than
    the amplitude, and a value returned at the centre [(mu_x, mu_y)] is
    the amplitude itself. *)
Theorem gaussian_returns_at_most_the_amplitude
    (amplitude mu_x mu_y sigma_x sigma_y x y z : R) :
  gaussian amplitude mu_x mu_y sigma_x sigma_y x y = Returns z ->
  Rabs z <= Rabs amplitude
  /\ (x = mu_x -> y = mu_y -> z = amplitude).
Proof.
  unfold gaussian.
  destruct (decide (4 * sigma_x ^ 2 = 0)) as [| Hx]; [discriminate |].
  destruct (decide (4 * sigma_y ^ 2 = 0)) as [| Hy]; [discriminate |].
  intros Hz.
  assert (Hv : z = amplitude
                   * exp (- ((x - mu_x) ^ 2 / (4 * sigma_x ^ 2)
                             + (y - mu_y) ^ 2 / (4 * sigma_y ^ 2))))
    by congruence.
  rewrite Hv. clear Hz Hv. split.
  - rewrite Rabs_mult.
    pose proof (gaussian_exponent_nonneg (x - mu_x) (y - mu_y) sigma_x sigma_y)
      as Ht.
    pose proof (exp_neg_le_1 _ Ht) as He.
    pose proof (exp_pos (- ((x - mu_x) ^ 2 / (4 * sigma_x ^ 2)
                            + (y - mu_y) ^ 2 / (4 * sigma_y ^ 2)))) as Hp.
    rewrite (Rabs_right (exp _)) by lra.
    pose proof (Rabs_pos amplitude). nra.
  - intros -> ->.
    replace (mu_x - mu_x) with 0 by ring.
    replace (mu_y - mu_y) with 0 by ring.
    unfold Rdiv. rewrite !pow_i, !Rmult_0_l, Rplus_0_l, Ropp_0, exp_0 by lia.
    ring.
Qed.

(** The surface is mirror symmetric about the centre along each axis. *)
Theorem gaussian_symmetric (amplitude mu_x mu_y sigma_x sigma_y dx dy : R) :
  gaussian amplitude mu_x mu_y sigma_x sigma_y (mu_x - dx) (mu_y + dy)
  = gaussian amplitude mu_x mu_y sigma_x sigma_y (mu_x + dx) (mu_y + dy)
  /\ gaussian amplitude mu_x mu_y sigma_x sigma_y (mu_x + dx) (mu_y - dy)
     = gaussian amplitude mu_x mu_y sigma_x sigma_y (mu_x + dx) (mu_y + dy).
Proof.
  unfold gaussian.
  replace ((mu_x - dx - mu_x) ^ 2) with ((mu_x + dx - mu_x) ^ 2) by ring.
  replace ((mu_y - dy - mu_y) ^ 2) with ((mu_y + dy - mu_y) ^ 2) by ring.
  split; reflexivity.
Qed.

(** With an amplitude that is not negative, of two points at which the
    closure returns, the one that is at least as far from the centre
    along both axes is not the higher one. *)
Theorem gaussian_decays
    (amplitude mu_x mu_y sigma_x sigma_y x1 y1 x2 y2 z1 z2 : R) :
  0 <= amplitude ->
  Rabs (x1 - mu_x) <= Rabs (x2 - mu_x) ->
  Rabs (y1 - mu_y) <= Rabs (y2 - mu_y) ->
  gaussian amplitude mu_x mu_y sigma_x sigma_y x1 y1 = Returns z1 ->
  gaussian amplitude mu_x mu_y sigma_x sigma_y x2 y2 = Returns z2 ->
  z2 <= z1.
Proof.
  intros Ha Hdx Hdy. unfold gaussian.
  destruct (decide (4 * sigma_x ^ 2 = 0)) as [| Hx]; [discriminate |].
  destruct (decide (4 * sigma_y ^ 2 = 0)) as [| Hy]; [discriminate |].
  intros Hz1 Hz2.
  assert (Hv1 : z1 = amplitude
                     * exp (- ((x1 - mu_x) ^ 2 / (4 * sigma_x ^ 2)
                               + (y1 - mu_y) ^ 2 / (4 * sigma_y ^ 2))))
    by congruence.
  assert (Hv2 : z2 = amplitude
                     * exp (- ((x2 - mu_x) ^ 2 / (4 * sigma_x ^ 2)
                               + (y2 - mu_y) ^ 2 / (4 * sigma_y ^ 2))))
    by congruence.
  rewrite Hv1, Hv2. clear Hz1 Hz2 Hv1 Hv2.
  apply Rmult_le_compat_l; [exact Ha |].
  assert (Hsq : forall u v, Rabs u <= Rabs v -> u ^ 2 <= v ^ 2).
  { intros u v Huv. rewrite <- (pow2_abs u), <- (pow2_abs v).
    apply pow_incr. split; [apply Rabs_pos | exact Huv]. }
  assert (Hix : 0 <= / (4 * sigma_x ^ 2)).
  { apply Rinv_nonneg. pose proof (pow2_ge_0 sigma_x). lra. }
  assert (Hiy : 0 <= / (4 * sigma_y ^ 2)).
  { apply Rinv_nonneg. pose proof (pow2_ge_0 sigma_y). lra. }
  pose proof (Hsq _ _ Hdx) as Hsx. pose proof (Hsq _ _ Hdy) as Hsy.
  set (t1 := (x1 - mu_x) ^ 2 / (4 * sigma_x ^ 2) + (y1 - mu_y) ^ 2 / (4 * sigma_y ^ 2)).
  set (t2 := (x2 - mu_x) ^ 2 / (4 * sigma_x ^ 2) + (y2 - mu_y) ^ 2 / (4 * sigma_y ^ 2)).
  assert (Ht : t1 <= t2).
  { unfold t1, t2, Rdiv. apply Rplus_le_compat; apply Rmult_le_compat_r; assumption. }
  destruct Ht as [Ht | Ht].
  - left. apply exp_increasing. lra.
  - rewrite Ht. lra.
Qed.

(** ** Shapes of the arrays of [precompute] *)

Lemma has_shape_map {A B} (g : A -> B) (a : ndarray A) (n m : nat) :
  has_shape a n m -> has_shape (map (map g) a) n m.
Proof.
  intros [Hn Hm]. split.
  - now rewrite length_map.
  - apply Forall_map. eapply Forall_impl; [exact Hm |].
    intros row Hrow. simpl. now rewrite length_map.
Qed.

Lemma has_shape_map2 {A B C} (g : A -> B -> C)
    (a : ndarray A) (b : ndarray B) (n m : nat) :
  has_shape a n m -> has_shape b n m -> has_shape (map2 g a b) n m.
Proof.
  unfold map2. revert b n. induction a as [| ra a IH]; intros b n [Hn Hm] [Hn' Hm'].
  - simpl in *. subst n. split; [reflexivity | constructor].
  - destruct b as [| rb b]; [simpl in *; lia |].
    simpl in Hn, Hn'. destruct n as [| n]; [lia |].
    inversion Hm as [| ? ? Hra Hma]; subst.
    inversion Hm' as [| ? ? Hrb Hmb]; subst.
    destruct (IH b n) as [IHn IHm].
    { split; [lia | assumption]. }
    { split; [lia | assumption]. }
    split.
    + simpl. now rewrite IHn.
    + constructor; [| exact IHm].
      rewrite length_zip_with. lia.
Qed.

Lemma has_shape_map3 {A B C D} (g : A -> B -> C -> D)
    (a : ndarray A) (b : ndarray B) (c : ndarray C) (n m : nat) :
  has_shape a n m -> has_shape b n m -> has_shape c n m ->
  has_shape (map3 g a b c) n m.
Proof.
  intros Ha Hb Hc. unfold map3.
  apply has_shape_map2; [| exact Hc]. now apply has_shape_map2.
Qed.

Lemma has_shape_mgrid (n0 n1 : nat) (d0 d1 : R) :
  has_shape (mgrid_mod1 n0 n1 d0 d1) n0 n1.
Proof.
  unfold mgrid_mod1. split.
  - now rewrite length_map, length_seq.
  - apply Forall_map, Forall_forall. intros i _. simpl.
    now rewrite length_map, length_seq.
Qed.

Lemma has_shape_rand (st : RandomState) (n m : nat) :
  has_shape (fst (rand st n m)) n m.
Proof.
  unfold rand. simpl. split.
  - now rewrite length_map, length_seq.
  - apply Forall_map, Forall_forall. intros i _. simpl.
    now rewrite length_map, length_seq.
Qed.

Lemma length_removelast {A} (l : list A) :
  length (removelast l) = pred (length l).
Proof.
  induction l as [| x [| y l] IH]; try reflexivity.
  change (length (removelast (x :: y :: l)))
    with (S (length (removelast (y :: l)))).
  rewrite IH. reflexivity.
Qed.

Lemma Forall_removelast {A} (P : A -> Prop) (l : list A) :
  Forall P l -> Forall P (removelast l).
Proof.
  induction l as [| x [| y l] IH]; intros H; try constructor.
  - inversion H; assumption.
  - apply IH. inversion H; assumption.
Qed.

Lemma has_shape_rows_but_last {A} (a : ndarray A) (n m : nat) :
  has_shape a (S n) m -> has_shape (rows_but_last a) n m.
Proof.
  intros [Hn Hm]. unfold rows_but_last. split.
  - rewrite length_removelast, Hn. reflexivity.
  - now apply Forall_removelast.
Qed.

Lemma has_shape_rows_but_first {A} (a : ndarray A) (n m : nat) :
  has_shape a (S n) m -> has_shape (rows_but_first a) n m.
Proof.
  intros [Hn Hm]. unfold rows_but_first.
  destruct a as [| r a]; [discriminate |]. simpl in *. split.
  - lia.
  - inversion Hm; assumption.
Qed.

Lemma has_shape_cols_but_last {A} (a : ndarray A) (n m : nat) :
  has_shape a n (S m) -> has_shape (cols_but_last a) n m.
Proof.
  intros [Hn Hm]. unfold cols_but_last. split.
  - now rewrite length_map.
  - apply Forall_map. eapply Forall_impl; [exact Hm |].
    intros row Hrow. simpl. rewrite length_removelast, Hrow. reflexivity.
Qed.

Lemma has_shape_cols_but_first {A} (a : ndarray A) (n m : nat) :
  has_shape a n (S m) -> has_shape (cols_but_first a) n m.
Proof.
  intros [Hn Hm]. unfold cols_but_first. split.
  - now rewrite length_map.
  - apply Forall_map. eapply Forall_impl; [exact Hm |].
    intros row Hrow. simpl. destruct row; [discriminate |].
    simpl in *. lia.
Qed.

Lemma length_flat_map_repeat {A} (d : nat) (l : list A) :
  length (flat_map (fun x => repeat x d) l) = (length l * d)%nat.
Proof.
  induction l as [| x l IH]; [reflexivity |].
  simpl. rewrite length_app, repeat_length, IH. reflexivity.
Qed.

Lemma has_shape_repeat_axis0 {A} (d : nat) (a : ndarray A) (n m : nat) :
  has_shape a n m -> has_shape (repeat_axis0 d a) (n * d) m.
Proof.
  intros [Hn Hm]. unfold repeat_axis0. split.
  - rewrite length_flat_map_repeat, Hn. reflexivity.
  - apply Forall_flat_map. eapply Forall_impl; [exact Hm |].
    intros row Hrow. simpl. apply Forall_forall.
    intros r Hr. apply list_elem_of_In, repeat_spec in Hr. now subst r.
Qed.

Lemma has_shape_repeat_axis1 {A} (d : nat) (a : ndarray A) (n m : nat) :
  has_shape a n m -> has_shape (repeat_axis1 d a) n (m * d).
Proof.
  intros [Hn Hm]. unfold repeat_axis1. split.
  - now rewrite length_map.
  - apply Forall_map. eapply Forall_impl; [exact Hm |].
    intros row Hrow. simpl. rewrite length_flat_map_repeat, Hrow. reflexivity.
Qed.

Lemma np_min_nonempty (a : ndarray R) (n m : nat) :
  has_shape a (S n) (S m) -> exists v : R, np_min a = Some v.
Proof.
  intros [Hn Hm]. unfold np_min.
  destruct a as [| row a]; [discriminate |].
  inversion Hm as [| ? ? Hrow _]; subst.
  destruct row as [| x row]; [discriminate |].
  simpl. eexists. reflexivity.
Qed.

(** The cell [a[0, 0]] through the element-wise operations. *)
Lemma getitem_00_inv {A} (a : ndarray A) (x : A) :
  getitem a 0 0 = Returns x -> exists row rest, a = (x :: row) :: rest.
Proof.
  unfold getitem, axis_index. intros H.
  destruct a as [| r a]; [simpl in H; discriminate |].
  rewrite decide_True in H by (simpl; lia). simpl in H.
  destruct r as [| v r]; [simpl in H; discriminate |].
  rewrite decide_True in H by (simpl; lia). simpl in H.
  injection H as ->. eauto.
Qed.

Lemma getitem_00_cons {A} (x : A) (row : list A) (rest : ndarray A) :
  getitem ((x :: row) :: rest) 0 0 = Returns x.
Proof. reflexivity. Qed.

Lemma getitem_00_shape {A} (a : ndarray A) (n m : nat) :
  has_shape a (S n) (S m) -> exists x, getitem a 0 0 = Returns x.
Proof.
  intros [Hn Hm]. destruct a as [| r a]; [discriminate |].
  inversion Hm as [| ? ? Hr _]; subst.
  destruct r as [| x r]; [discriminate |]. now exists x.
Qed.

Lemma getitem_00_map {A B} (g : A -> B) (a : ndarray A) (x : A) :
  getitem a 0 0 = Returns x -> getitem (map (map g) a) 0 0 = Returns (g x).
Proof.
  intros H. apply getitem_00_inv in H as (row & rest & ->). reflexivity.
Qed.

Lemma getitem_00_map2 {A B C} (g : A -> B -> C)
    (a : ndarray A) (b : ndarray B) (x : A) (y : B) :
  getitem a 0 0 = Returns x -> getitem b 0 0 = Returns y ->
  getitem (map2 g a b) 0 0 = Returns (g x y).
Proof.
  intros Ha Hb.
  apply getitem_00_inv in Ha as (ra & resta & ->).
  apply getitem_00_inv in Hb as (rb & restb & ->). reflexivity.
Qed.

Lemma getitem_00_map3 {A B C D} (g : A -> B -> C -> D)
    (a : ndarray A) (b : ndarray B) (c : ndarray C) (x : A) (y : B) (z : C) :
  getitem a 0 0 = Returns x -> getitem b 0 0 = Returns y ->
  getitem c 0 0 = Returns z ->
  getitem (map3 g a b c) 0 0 = Returns (g x y z).
Proof.
  intros Ha Hb Hc. unfold map3.
  exact (getitem_00_map2 (fun ab c => g (fst ab) (snd ab) c) _ _ (x, y) z
           (getitem_00_map2 pair a b x y Ha Hb) Hc).
Qed.

Lemma getitem_00_mgrid (n0 n1 : nat) (d0 d1 : R) :
  getitem (mgrid_mod1 (S n0) (S n1) d0 d1) 0 0 = Returns (0, 0).
Proof.
  unfold mgrid_mod1. cbn [seq map]. rewrite getitem_00_cons.
  do 2 f_equal; f_equal; simpl INR; rewrite Rmult_0_l;
    apply frac_part_below_one; lra.
Qed.

Lemma fold_left_Rmin_le (l : list R) (x : R) :
  fold_left Rmin l x <= x /\ Forall (fun v => fold_left Rmin l x <= v) l.
Proof.
  revert x. induction l as [| y l IH]; intros x; simpl.
  - split; [lra | constructor].
  - destruct (IH (Rmin x y)) as [H1 H2].
    pose proof (Rmin_l x y). pose proof (Rmin_r x y).
    split; [lra |]. constructor; [lra | exact H2].
Qed.

Lemma np_min_le (a : ndarray R) (m : R) :
  np_min a = Some m -> Forall (Forall (fun v => m <= v)) a.
Proof.
  unfold np_min. intros H.
  destruct (concat a) as [| x l] eqn:Hc; [discriminate |].
  injection H as <-.
  destruct (fold_left_Rmin_le l x) as [H1 H2].
  assert (Hall : Forall (fun v => fold_left Rmin l x <= v) (concat a)).
  { rewrite Hc. constructor; assumption. }
  clear - Hall. induction a as [| r a IH]; [constructor |].
  simpl in Hall. apply Forall_app in Hall as [Hr Ha].
  constructor; [exact Hr | now apply IH].
Qed.

Lemma getitem_Forall {A} (P : A -> Prop) (a : ndarray A) (x y : Z) (v : A) :
  Forall (Forall P) a -> getitem a x y = Returns v -> P v.
Proof.
  intros Hall. unfold getitem. intros H.
  destruct (axis_index (length a) x) as [i |]; [| discriminate].
  destruct (a !! i) as [row |] eqn:Hrow; [| discriminate].
  destruct (axis_index (length row) y) as [j |]; [| discriminate].
  destruct (row !! j) as [u |] eqn:Hu; [| discriminate].
  injection H as <-.
  rewrite Forall_forall in Hall.
  pose proof (Hall row (list_elem_of_lookup_2 _ _ _ Hrow)) as Hr.
  rewrite Forall_forall in Hr. apply Hr.
  eapply list_elem_of_lookup_2. exact Hu.
Qed.


Lemma guard_divides (r s : nat) :
  (r <> 0)%nat -> (r * (s / r) = s)%nat <-> Nat.divide r s.
Proof.
  intros Hr. rewrite <- Nat.Lcm0.mod_divide, <- Nat.Div0.div_exact.
  split; intros H; symmetry; exact H.
Qed.

(** The raw field of [precompute], before the minimum is added: the
    arrays computed between the two tests of the shape. *)
Lemma precompute_cases (self : PerlinNoise2D) (st : RandomState) :
  let s0 := fst (shape self) in
  let s1 := snd (shape self) in
  let r0 := fst (res self) in
  let r1 := snd (res self) in
  ((s0 = 0 \/ s1 = 0 \/ r0 = 0 \/ r1 = 0
    \/ r0 * (s0 / r0) <> s0 \/ r1 * (s1 / r1) <> s1)%nat
   /\ precompute self st = None)
  \/ ((0 < s0 /\ 0 < s1 /\ 0 < r0 /\ 0 < r1
       /\ r0 * (s0 / r0) = s0 /\ r1 * (s1 / r1) = s1)%nat
      /\ exists (raw : ndarray R) (m : R),
          has_shape raw s0 s1
          /\ getitem raw 0 0 = Returns 0
          /\ np_min raw = Some m
          /\ precompute self st
             = Some (mkPerlinNoise2D (amplitude self) (shape self) (res self)
                                     (Some (map (map (fun v => v + m)) raw)),
                     fun k => st ((r0 + 1) * (r1 + 1) + k)%nat)).
Proof.
  intros s0 s1 r0 r1. unfold precompute.
  fold s0 s1 r0 r1.
  destruct (decide (s0 = 0 \/ s1 = 0 \/ r0 = 0 \/ r1 = 0)%nat) as [Hz | Hz].
  { left. split; [tauto | reflexivity]. }
  unfold rand. cbn [fst snd].
  destruct (decide (r0 * (s0 / r0) <> s0 \/ r1 * (s1 / r1) <> s1)%nat)
    as [Hd | Hd].
  { left. split; [tauto | reflexivity]. }
  right.
  assert (Hs0 : (r0 * (s0 / r0) = s0)%nat) by (clear - Hd; tauto || lia).
  assert (Hs1 : (r1 * (s1 / r1) = s1)%nat) by (clear - Hd; tauto || lia).
  split; [clear - Hz Hs0 Hs1; lia |].
  set (grid := mgrid_mod1 s0 s1 (INR r0 / INR s0) (INR r1 / INR s1)).
  set (gradients :=
         map (map (fun a => (cos a, sin a)))
           (map (map (fun u => 2 * PI * u))
              (map (fun i => map (fun j => st (i * (r1 + 1) + j)%nat)
                                 (seq 0 (r1 + 1)))
                   (seq 0 (r0 + 1))))).
  set (g00 := repeat_axis1 _ (repeat_axis0 _ (cols_but_last (rows_but_last gradients)))).
  set (g10 := repeat_axis1 _ (repeat_axis0 _ (cols_but_last (rows_but_first gradients)))).
  set (g01 := repeat_axis1 _ (repeat_axis0 _ (cols_but_first (rows_but_last gradients)))).
  set (g11 := repeat_axis1 _ (repeat_axis0 _ (cols_but_first (rows_but_first gradients)))).
  set (t := map (map (fun p : R * R => (f (fst p), f (snd p)))) grid).
  set (n00 := map2 dot grid g00).
  set (n10 := map2 dot _ g10).
  set (n01 := map2 dot _ g01).
  set (n11 := map2 dot _ g11).
  set (n0 := map3 _ n00 t n10).
  set (n1 := map3 _ n01 t n11).
  set (terrain := map3 _ t n0 n1).
  assert (Hgrid : has_shape grid s0 s1) by apply has_shape_mgrid.
  assert (Hgrad : has_shape gradients (S r0) (S r1)).
  { unfold gradients. do 2 apply has_shape_map.
    replace (S r0) with (r0 + 1)%nat by lia.
    replace (S r1) with (r1 + 1)%nat by lia.
    exact (has_shape_rand st (r0 + 1) (r1 + 1)). }
  assert (Hrep : forall g : ndarray (R * R),
             has_shape g r0 r1 ->
             has_shape (repeat_axis1 (s1 / r1) (repeat_axis0 (s0 / r0) g))
                       s0 s1).
  { intros g Hg. rewrite <- Hs0 at 2. rewrite <- Hs1 at 2.
    now apply has_shape_repeat_axis1, has_shape_repeat_axis0. }
  assert (H00 : has_shape g00 s0 s1).
  { apply Hrep, has_shape_cols_but_last, has_shape_rows_but_last, Hgrad. }
  assert (H10 : has_shape g10 s0 s1).
  { apply Hrep, has_shape_cols_but_last, has_shape_rows_but_first, Hgrad. }
  assert (H01 : has_shape g01 s0 s1).
  { apply Hrep, has_shape_cols_but_first, has_shape_rows_but_last, Hgrad. }
  assert (H11 : has_shape g11 s0 s1).
  { apply Hrep, has_shape_cols_but_first, has_shape_rows_but_first, Hgrad. }
  assert (Ht : has_shape t s0 s1) by now apply has_shape_map.
  assert (Hn00 : has_shape n00 s0 s1) by now apply has_shape_map2.
  assert (Hn10 : has_shape n10 s0 s1)
    by (apply has_shape_map2; [now apply has_shape_map | assumption]).
  assert (Hn01 : has_shape n01 s0 s1)
    by (apply has_shape_map2; [now apply has_shape_map | assumption]).
  assert (Hn11 : has_shape n11 s0 s1)
    by (apply has_shape_map2; [now apply has_shape_map | assumption]).
  assert (Hn0 : has_shape n0 s0 s1) by now apply has_shape_map3.
  assert (Hn1 : has_shape n1 s0 s1) by now apply has_shape_map3.
  assert (Hterrain : has_shape terrain s0 s1) by now apply has_shape_map3.
  assert (Hpos : exists k0 k1, s0 = S k0 /\ s1 = S k1).
  { clear - Hz. destruct s0 as [| k0]; [tauto |].
    destruct s1 as [| k1]; [tauto |]. eauto. }
  destruct Hpos as (k0 & k1 & Hk0 & Hk1).
  assert (Hcorner : getitem terrain 0 0 = Returns 0).
  { assert (Hg : getitem grid 0 0 = Returns (0, 0)).
    { unfold grid. rewrite Hk0, Hk1. apply getitem_00_mgrid. }
    assert (Hc : forall a : ndarray R,
               has_shape a s0 s1 -> exists x, getitem a 0 0 = Returns x).
    { intros a Ha. rewrite Hk0, Hk1 in Ha. eapply getitem_00_shape, Ha. }
    assert (Hc' : forall a : ndarray (R * R),
               has_shape a s0 s1 -> exists x, getitem a 0 0 = Returns x).
    { intros a Ha. rewrite Hk0, Hk1 in Ha. eapply getitem_00_shape, Ha. }
    destruct (Hc' g00 H00) as [c00 Hc00].
    destruct (Hc n10 Hn10) as [v10 Hv10].
    destruct (Hc n1 Hn1) as [v1 Hv1].
    assert (Htc : getitem t 0 0 = Returns (f 0, f 0))
      by exact (getitem_00_map _ grid (0, 0) Hg).
    assert (Hn00c : getitem n00 0 0 = Returns (dot (0, 0) c00))
      by exact (getitem_00_map2 dot grid g00 _ _ Hg Hc00).
    assert (Hn0c : getitem n0 0 0 = Returns 0).
    { unfold n0.
      erewrite getitem_00_map3; [| exact Hn00c | exact Htc | exact Hv10].
      f_equal. unfold dot. cbn [fst snd]. rewrite fade_0. ring. }
    unfold terrain.
    erewrite getitem_00_map3; [| exact Htc | exact Hn0c | exact Hv1].
    f_equal. cbn [fst snd]. rewrite fade_0. ring. }
  clearbody terrain. clear - Hterrain Hcorner Hk0 Hk1.
  destruct (np_min_nonempty terrain k0 k1) as [m Hm].
  { rewrite <- Hk0, <- Hk1. exact Hterrain. }
  rewrite Hm.
  exists terrain, m. repeat split; try assumption; apply Hterrain.
Qed.

(** In exact arithmetic, [precompute] returns exactly when no axis of the
    shape or of the resolution is empty and the resolution divides the
    shape along both axes. *)
Lemma precompute_succeeds_iff (self : PerlinNoise2D) (st : RandomState) :
  (exists r, precompute self st = Some r)
  <-> (0 < fst (shape self) /\ 0 < snd (shape self)
       /\ 0 < fst (res self) /\ 0 < snd (res self)
       /\ Nat.divide (fst (res self)) (fst (shape self))
       /\ Nat.divide (snd (res self)) (snd (shape self)))%nat.
Proof.
  destruct (precompute_cases self st)
    as [[Hbad Hnone] | [Hok (raw & m & _ & _ & _ & Hsome)]].
  - split.
    + intros [r Hr]. congruence.
    + intros (H0 & H1 & H2 & H3 & H4 & H5). exfalso.
      apply guard_divides in H4; [| lia]. apply guard_divides in H5; [| lia].
      lia.
  - split.
    + intros _. destruct Hok as (H0 & H1 & H2 & H3 & H4 & H5).
      apply guard_divides in H4; [| lia]. apply guard_divides in H5; [| lia].
      tauto.
    + intros _. eexists. exact Hsome.
Qed.

(** [precompute] returns only when no axis of the shape or of the
    resolution is empty and the resolution divides the shape along both
    axes: on every other object it raises. *)
Theorem precompute_returns_only_when_shapes_fit
    (self : PerlinNoise2D) (st : RandomState) (r : PerlinNoise2D * RandomState) :
  precompute self st = Some r ->
  (0 < fst (shape self) /\ 0 < snd (shape self)
   /\ 0 < fst (res self) /\ 0 < snd (res self)
   /\ Nat.divide (fst (res self)) (fst (shape self))
   /\ Nat.divide (snd (res self)) (snd (shape self)))%nat.
Proof.
  intros Hrun.
  destruct (precompute_cases self st)
    as [[_ Hnone] | [(H0 & H1 & H2 & H3 & H4 & H5) _]]; [congruence |].
  apply guard_divides in H4; [| lia]. apply guard_divides in H5; [| lia].
  tauto.
Qed.

(** When [precompute] returns, the object keeps its amplitude, shape and
    resolution, its field has the shape asked for, and the process-wide
    generator has moved on by [(res[0] + 1) * (res[1] + 1)] draws. *)
Theorem precompute_result
    (self p : PerlinNoise2D) (st st' : RandomState) :
  precompute self st = Some (p, st') ->
  amplitude p = amplitude self /\ shape p = shape self /\ res p = res self
  /\ (exists a : ndarray R,
        terrain_map p = Some a
        /\ has_shape a (fst (shape self)) (snd (shape self)))
  /\ forall k : nat,
      st' k = st ((fst (res self) + 1) * (snd (res self) + 1) + k)%nat.
Proof.
  intros Hrun.
  destruct (precompute_cases self st)
    as [[_ Hnone] | [_ (raw & m & Hraw & _ & _ & Hsome)]].
  - congruence.
  - rewrite Hsome in Hrun. injection Hrun as <- <-.
    repeat split; try reflexivity. eexists. split; [reflexivity |].
    now apply has_shape_map.
Qed.

(** ** Reading the field *)

Lemma axis_index_nonneg (n : nat) (i : Z) :
  (0 <= i < Z.of_nat n)%Z -> axis_index n i = Some (Z.to_nat i).
Proof. intros Hi. unfold axis_index. now rewrite decide_True. Qed.

Lemma axis_index_negative (n : nat) (i : Z) :
  (0 <= i < Z.of_nat n)%Z ->
  axis_index n (i - Z.of_nat n) = Some (Z.to_nat i).
Proof.
  intros Hi. unfold axis_index.
  rewrite decide_False by lia. rewrite decide_True by lia.
  f_equal. lia.
Qed.

Lemma axis_index_outside (n : nat) (i : Z) :
  (i < - Z.of_nat n \/ Z.of_nat n <= i)%Z -> axis_index n i = None.
Proof.
  intros Hi. unfold axis_index.
  rewrite decide_False by lia. now rewrite decide_False by lia.
Qed.

Lemma axis_index_bound (n : nat) (i : Z) (k : nat) :
  axis_index n i = Some k -> (k < n)%nat.
Proof.
  unfold axis_index. intros H.
  destruct (decide (0 <= i < Z.of_nat n)%Z); [injection H as <-; lia |].
  destruct (decide (- Z.of_nat n <= i < 0)%Z); [injection H as <-; lia |].
  discriminate.
Qed.

Lemma getitem_at {A} (a : ndarray A) (row : list A) (v : A)
    (x y : Z) (i j : nat) :
  axis_index (length a) x = Some i -> a !! i = Some row ->
  axis_index (length row) y = Some j -> row !! j = Some v ->
  getitem a x y = Returns v.
Proof.
  intros Hi Hrow Hj Hv. unfold getitem. now rewrite Hi, Hrow, Hj, Hv.
Qed.

Lemma getitem_inside {A} (a : ndarray A) (n m : nat) (x y : Z) :
  has_shape a n m ->
  (0 <= x < Z.of_nat n)%Z -> (0 <= y < Z.of_nat m)%Z ->
  exists v : A,
    getitem a x y = Returns v
    /\ getitem a (x - Z.of_nat n) y = Returns v
    /\ getitem a x (y - Z.of_nat m) = Returns v
    /\ getitem a (x - Z.of_nat n) (y - Z.of_nat m) = Returns v.
Proof.
  intros [Hn Hm] Hx Hy.
  destruct (lookup_lt_is_Some_2 a (Z.to_nat x)) as [row Hrow]; [lia |].
  assert (Hlen : length row = m).
  { rewrite Forall_forall in Hm. apply Hm.
    eapply list_elem_of_lookup_2. exact Hrow. }
  destruct (lookup_lt_is_Some_2 row (Z.to_nat y)) as [v Hv]; [lia |].
  exists v.
  repeat split; apply (getitem_at a row v _ _ (Z.to_nat x) (Z.to_nat y));
    try assumption; rewrite ?Hn, ?Hlen;
    first [now apply axis_index_nonneg | now apply axis_index_negative].
Qed.

Lemma getitem_outside {A} (a : ndarray A) (n m : nat) (x y : Z) :
  has_shape a n m ->
  (x < - Z.of_nat n \/ Z.of_nat n <= x
   \/ y < - Z.of_nat m \/ Z.of_nat m <= y)%Z ->
  getitem a x y = Raises "IndexError".
Proof.
  intros [Hn Hm] Hout. unfold getitem. rewrite Hn.
  destruct (axis_index n x) as [i |] eqn:Hi; [| reflexivity].
  destruct (a !! i) as [row |] eqn:Hrow; [| reflexivity].
  assert (Hlen : length row = m).
  { rewrite Forall_forall in Hm. apply Hm.
    eapply list_elem_of_lookup_2. exact Hrow. }
  rewrite Hlen.
  destruct (axis_index m y) as [j |] eqn:Hj; [| reflexivity].
  exfalso.
  destruct Hout as [Hx | [Hx | Hy]].
  - rewrite axis_index_outside in Hi by lia. discriminate.
  - rewrite axis_index_outside in Hi by lia. discriminate.
  - rewrite axis_index_outside in Hj by lia. discriminate.
Qed.

(** [fn] raises [TypeError] on an object that was only constructed.  After
    [precompute], [fn] returns at every integer coordinate inside the
    shape, a coordinate counted from the end reads the same cell, and a
    coordinate outside [[-n, n)] on either axis raises [IndexError]. *)
Theorem fn_reads_the_field
    (self p : PerlinNoise2D) (st st' : RandomState) (x y : Z) :
  precompute self st = Some (p, st') ->
  let n := Z.of_nat (fst (shape self)) in
  let m := Z.of_nat (snd (shape self)) in
  fn (init (amplitude self) (shape self) (res self)) (PyInt x) (PyInt y)
  = Raises "TypeError"
  /\ ((0 <= x < n)%Z -> (0 <= y < m)%Z ->
      exists v : R,
        fn p (PyInt x) (PyInt y) = Returns v
        /\ fn p (PyInt (x - n)) (PyInt (y - m)) = Returns v)
  /\ ((x < - n \/ n <= x \/ y < - m \/ m <= y)%Z ->
      fn p (PyInt x) (PyInt y) = Raises "IndexError").
Proof.
  intros Hrun n m.
  destruct (precompute_cases self st)
    as [[_ Hnone] | [_ (raw & m0 & Hraw & _ & _ & Hsome)]];
    [congruence |].
  rewrite Hsome in Hrun. injection Hrun as <- _.
  pose proof (has_shape_map (fun v => v + m0) raw _ _ Hraw) as Hshape.
  set (a := map (map (fun v => v + m0)) raw) in *.
  split; [reflexivity |]. unfold fn. cbn [terrain_map py_int]. split.
  - intros Hx Hy.
    destruct (getitem_inside a _ _ x y Hshape Hx Hy) as (v & H1 & _ & _ & H4).
    exists v. split; assumption.
  - intros Hout. now apply (getitem_outside a _ _ x y Hshape).
Qed.

(** The field is the raw noise plus its own minimum, and the raw noise
    is 0 at the origin.  So after [precompute] the cell [(0, 0)] is never
    positive, and no cell reads below twice the value of that cell. *)
Theorem field_origin_is_lowest_level
    (self p : PerlinNoise2D) (st st' : RandomState) :
  precompute self st = Some (p, st') ->
  exists v0 : R,
    fn p (PyInt 0) (PyInt 0) = Returns v0
    /\ v0 <= 0
    /\ forall (x y : Z) (v : R),
         fn p (PyInt x) (PyInt y) = Returns v -> 2 * v0 <= v.
Proof.
  intros Hrun.
  destruct (precompute_cases self st)
    as [[_ Hnone] | [_ (raw & m & Hraw & Hcorner & Hmin & Hsome)]];
    [congruence |].
  rewrite Hsome in Hrun. injection Hrun as <- _.
  pose proof (np_min_le raw m Hmin) as Hle.
  exists (0 + m). unfold fn. cbn [terrain_map py_int]. split; [| split].
  - now apply (getitem_00_map (fun v => v + m) raw 0).
  - pose proof (getitem_Forall _ raw 0 0 0 Hle Hcorner). lra.
  - intros x y v Hv.
    pose proof (getitem_Forall _ raw 0 0 0 Hle Hcorner) as Hm0.
    assert (Hall : Forall (Forall (fun v => 2 * (0 + m) <= v))
                          (map (map (fun v => v + m)) raw)).
    { apply Forall_map. eapply Forall_impl; [exact Hle |].
      intros row Hrow. simpl. apply Forall_map.
      eapply Forall_impl; [exact Hrow |]. intros u Hu. simpl. lra. }
    exact (getitem_Forall _ _ x y v Hall Hv).
Qed.

(** Witnesses for the elevation functions. *)
Lemma gaussian_zero_sigma_never_returns_witness :
  (0 = 0 \/ 2 = 0)
  /\ forall z : R, gaussian 100 5 5 0 2 1 1 <> Returns z.
Proof.
  assert (Hs : 0 = 0 \/ 2 = 0) by (left; reflexivity).
  split; [exact Hs |].
  exact (gaussian_zero_sigma_never_returns 100 5 5 0 2 1 1 Hs).
Defined.

Lemma gaussian_returns_at_most_the_amplitude_witness :
  gaussian 100 5 5 3 2 5 5
  = Returns (100 * exp (- ((5 - 5) ^ 2 / (4 * 3 ^ 2)
                           + (5 - 5) ^ 2 / (4 * 2 ^ 2))))
  /\ Rabs (100 * exp (- ((5 - 5) ^ 2 / (4 * 3 ^ 2)
                         + (5 - 5) ^ 2 / (4 * 2 ^ 2))))
     <= Rabs 100
  /\ (5 = 5 -> 5 = 5 ->
      100 * exp (- ((5 - 5) ^ 2 / (4 * 3 ^ 2) + (5 - 5) ^ 2 / (4 * 2 ^ 2)))
      = 100).
Proof.
  assert (Hz : gaussian 100 5 5 3 2 5 5
               = Returns (100 * exp (- ((5 - 5) ^ 2 / (4 * 3 ^ 2)
                                        + (5 - 5) ^ 2 / (4 * 2 ^ 2)))))
    by (apply gaussian_value; lra).
  split; [exact Hz |].
  exact (gaussian_returns_at_most_the_amplitude 100 5 5 3 2 5 5 _ Hz).
Defined.

Lemma gaussian_decays_witness :
  gaussian 100 5 5 3 2 4 5
  = Returns (100 * exp (- ((4 - 5) ^ 2 / (4 * 3 ^ 2)
                           + (5 - 5) ^ 2 / (4 * 2 ^ 2))))
  /\ gaussian 100 5 5 3 2 7 8
     = Returns (100 * exp (- ((7 - 5) ^ 2 / (4 * 3 ^ 2)
                              + (8 - 5) ^ 2 / (4 * 2 ^ 2))))
  /\ 100 * exp (- ((7 - 5) ^ 2 / (4 * 3 ^ 2) + (8 - 5) ^ 2 / (4 * 2 ^ 2)))
     <= 100 * exp (- ((4 - 5) ^ 2 / (4 * 3 ^ 2) + (5 - 5) ^ 2 / (4 * 2 ^ 2))).
Proof.
  assert (Hz1 : gaussian 100 5 5 3 2 4 5
                = Returns (100 * exp (- ((4 - 5) ^ 2 / (4 * 3 ^ 2)
                                         + (5 - 5) ^ 2 / (4 * 2 ^ 2)))))
    by (apply gaussian_value; lra).
  assert (Hz2 : gaussian 100 5 5 3 2 7 8
                = Returns (100 * exp (- ((7 - 5) ^ 2 / (4 * 3 ^ 2)
                                         + (8 - 5) ^ 2 / (4 * 2 ^ 2)))))
    by (apply gaussian_value; lra).
  split; [exact Hz1 |]. split; [exact Hz2 |].
  apply (gaussian_decays 100 5 5 3 2 4 5 7 8 _ _); try assumption; try lra;
    unfold Rabs; repeat destruct (Rcase_abs _); lra.
Defined.

Lemma precompute_on_zero_draws :
  precompute (init 1 (2, 2)%nat (1, 1)%nat) (fun _ => 0)
  = Some (mkPerlinNoise2D 1 (2, 2)%nat (1, 1)%nat (Some [[0; 0]; [0; 0]]),
          fun _ => 0).
Proof. noise_eval. repeat f_equal; resolve_min. Qed.

Lemma precompute_returns_only_when_shapes_fit_witness :
  let self := init 1 (2, 2)%nat (1, 1)%nat in
  (0 < fst (shape self) /\ 0 < snd (shape self)
   /\ 0 < fst (res self) /\ 0 < snd (res self)
   /\ Nat.divide (fst (res self)) (fst (shape self))
   /\ Nat.divide (snd (res self)) (snd (shape self)))%nat.
Proof.
  exact (precompute_returns_only_when_shapes_fit _ _ _ precompute_on_zero_draws).
Defined.

Lemma precompute_result_witness :
  let self := init 1 (2, 2)%nat (1, 1)%nat in
  let p := mkPerlinNoise2D 1 (2, 2)%nat (1, 1)%nat (Some [[0; 0]; [0; 0]]) in
  amplitude p = amplitude self /\ shape p = shape self /\ res p = res self
  /\ (exists a : ndarray R,
        terrain_map p = Some a
        /\ has_shape a (fst (shape self)) (snd (shape self)))
  /\ forall k : nat,
      (fun _ : nat => 0) k
      = (fun _ : nat => 0)
          ((fst (res self) + 1) * (snd (res self) + 1) + k)%nat.
Proof.
  exact (precompute_result _ _ _ _ precompute_on_zero_draws).
Defined.

Lemma fn_reads_the_field_witness :
  let self := init 1 (2, 2)%nat (1, 1)%nat in
  let p := mkPerlinNoise2D 1 (2, 2)%nat (1, 1)%nat (Some [[0; 0]; [0; 0]]) in
  fn (init (amplitude self) (shape self) (res self)) (PyInt 1) (PyInt 0)
  = Raises "TypeError"
  /\ ((0 <= 1 < 2)%Z -> (0 <= 0 < 2)%Z ->
      exists v : R,
        fn p (PyInt 1) (PyInt 0) = Returns v
        /\ fn p (PyInt (1 - 2)) (PyInt (0 - 2)) = Returns v)
  /\ ((1 < - 2 \/ 2 <= 1 \/ 0 < - 2 \/ 2 <= 0)%Z ->
      fn p (PyInt 1) (PyInt 0) = Raises "IndexError").
Proof.
  exact (fn_reads_the_field _ _ _ _ 1%Z 0%Z precompute_on_zero_draws).
Defined.

Lemma field_origin_is_lowest_level_witness :
  let p := mkPerlinNoise2D 1 (2, 2)%nat (1, 1)%nat (Some [[0; 0]; [0; 0]]) in
  exists v0 : R,
    fn p (PyInt 0) (PyInt 0) = Returns v0
    /\ v0 <= 0
    /\ forall (x y : Z) (v : R),
         fn p (PyInt x) (PyInt y) = Returns v -> 2 * v0 <= v.
Proof.
  exact (field_origin_is_lowest_level _ _ _ _ precompute_on_zero_draws).
Defined.

(** ** Burn-status codes, both ways *)

(** [BurnStatus(value)] gives back the member a value came from, a member
    found for a value has that value, and the values without a member,
    for which [BurnStatus(v)] raises [ValueError], are those below 1 and
    above 6. *)
Theorem burn_status_value_round_trip :
  (forall s : BurnStatus, of_value (value s) = Some s)
  /\ (forall (v : Z) (s : BurnStatus), of_value v = Some s -> value s = v)
  /\ (forall v : Z, of_value v = None <-> (v < 1 \/ 6 < v)%Z).
Proof.
  assert (Hcases : forall v : Z,
             (v < 1 \/ 6 < v)%Z /\ of_value v = None
             \/ exists s, value s = v /\ of_value v = Some s).
  { intros v.
    destruct (decide (v < 1 \/ 6 < v)%Z) as [Hout | Hin].
    - left. split; [exact Hout |].
      unfold of_value, members. cbn [find].
      rewrite !bool_decide_eq_false_2; [reflexivity | ..];
        cbv [value WETLINE_value SCRATCHLINE_value FIRELINE_value BURNED_value
             BURNING_value UNBURNED_value auto last]; simpl; lia.
    - right.
      assert (Hv : (v = 1 \/ v = 2 \/ v = 3 \/ v = 4 \/ v = 5 \/ v = 6)%Z)
        by lia.
      destruct Hv as [-> | [-> | [-> | [-> | [-> | ->]]]]];
        [exists UNBURNED | exists BURNING | exists BURNED | exists FIRELINE
        | exists SCRATCHLINE | exists WETLINE]; split; reflexivity. }
  split; [| split].
  - intros s. destruct s; reflexivity.
  - intros v s Hs.
    destruct (Hcases v) as [[_ Hnone] | (s' & Hval & Hsome)]; congruence.
  - intros v.
    destruct (Hcases v) as [[Hout Hnone] | (s' & Hval & Hsome)].
    + tauto.
    + split; [congruence |]. intros Hout. exfalso.
      subst v. destruct s'; cbv in Hout; destruct Hout as [H | H];
        discriminate H.
Qed.

(** ** The game window *)

Lemma Int_part_between (x : R) (a b : Z) :
  IZR a <= x -> x <= IZR b -> (a <= Int_part x <= b)%Z.
Proof.
  intros Ha Hb. destruct (base_Int_part x) as [H1 H2]. split.
  - assert (H : (a - 1 < Int_part x)%Z).
    { apply lt_IZR. rewrite minus_IZR. lra. }
    lia.
  - apply le_IZR. lra.
Qed.

(** Every channel of the colour of a wind direction is a byte, whatever
    the direction; a direction outside [[0, 360]] is white. *)
Theorem wind_direction_color_is_rgb (direction : R) :
  let '(r, g, b) := Game._get_wind_direction_color direction in
  ((0 <= r <= 255) /\ (0 <= g <= 255) /\ (0 <= b <= 255))%Z
  /\ (direction < 0 \/ 360 < direction -> (r, g, b) = (255, 255, 255)%Z).
Proof.
  unfold Game._get_wind_direction_color.
  destruct (decide (direction >= 0 /\ direction < 90)) as [[H1 H1'] | H1];
  destruct (decide (direction >= 90 /\ direction < 180)) as [[H2 H2'] | H2];
  destruct (decide (direction >= 180 /\ direction < 270)) as [[H3 H3'] | H3];
  destruct (decide (direction <= 360 /\ direction >= 270)) as [[H4 H4'] | H4];
  try (exfalso; lra); cbn [fst snd].
  all: split;
    [ split; [| split]; apply Int_part_between; lra
    | intros Hout; try (exfalso; lra) ].
  assert (Hw : Int_part 255 = 255%Z).
  { pose proof (Int_part_between 255 255 255 ltac:(lra) ltac:(lra)). lia. }
  rewrite Hw. reflexivity.
Qed.

Lemma handle_event_status (s : GameStatus) (g : Game.Game) (o : list string)
    (ev : Game.Event) :
  fst (fst (Game.handle_event (s, g, o) ev))
  = match ev with Game.QuitEvent => QUIT | _ => s end.
Proof.
  destruct g as [hd mag dir].
  destruct ev as [| [|] [|] |], mag, dir; reflexivity.
Qed.

Lemma handle_event_headless (s : GameStatus) (g : Game.Game) (o : list string)
    (ev : Game.Event) :
  Game.headless (snd (fst (Game.handle_event (s, g, o) ev))) = Game.headless g.
Proof.
  destruct g as [hd mag dir].
  destruct ev as [| [|] [|] |], mag, dir; reflexivity.
Qed.

Lemma handle_event_exclusive (s : GameStatus) (g : Game.Game) (o : list string)
    (ev : Game.Event) :
  let g' := snd (fst (Game.handle_event (s, g, o) ev)) in
  (Game.show_wind_magnitude g && Game.show_wind_direction g = false
   \/ (exists k_m k_n, ev = Game.KeyDown k_m k_n /\ k_m || k_n = true)) ->
  Game.show_wind_magnitude g' && Game.show_wind_direction g' = false.
Proof.
  destruct g as [hd mag dir].
  destruct ev as [| [|] [|] |], mag, dir; simpl;
    intros [H | (k_m & k_n & He & Hk)]; try reflexivity; try discriminate;
    try (injection He as <- <-; discriminate).
Qed.

Lemma foldl_handle_event_status (events : list Game.Event) :
  forall (s : GameStatus) (g : Game.Game) (o : list string),
    fst (fst (foldl Game.handle_event (s, g, o) events)) = QUIT
    <-> s = QUIT \/ In Game.QuitEvent events.
Proof.
  induction events as [| ev events IH]; intros s g o.
  - simpl. tauto.
  - cbn [foldl].
    pose proof (handle_event_status s g o ev) as Hs.
    destruct (Game.handle_event (s, g, o) ev) as [[s' g'] o'].
    simpl in Hs. rewrite IH, Hs. simpl.
    destruct ev; split; intros [H | H]; auto;
      try (destruct H as [H | H]; [discriminate | auto]).
Qed.

Lemma foldl_handle_event_exclusive (events : list Game.Event) :
  forall (s : GameStatus) (g : Game.Game) (o : list string),
    (Game.show_wind_magnitude g && Game.show_wind_direction g = false
     \/ exists k_m k_n, In (Game.KeyDown k_m k_n) events /\ k_m || k_n = true) ->
    let g' := snd (fst (foldl Game.handle_event (s, g, o) events)) in
    Game.show_wind_magnitude g' && Game.show_wind_direction g' = false.
Proof.
  induction events as [| ev events IH]; intros s g o Hpre.
  - simpl. destruct Hpre as [H | (k_m & k_n & [] & _)]. exact H.
  - cbn [foldl].
    pose proof (handle_event_exclusive s g o ev) as Hstep.
    destruct (Game.handle_event (s, g, o) ev) as [[s' g'] o'].
    simpl in Hstep. apply IH.
    destruct Hpre as [H | (k_m & k_n & [He | Hin] & Hk)].
    + left. apply Hstep. now left.
    + left. apply Hstep. right. eauto.
    + right. eauto.
Qed.

Lemma handle_event_status_cases (s : GameStatus) (g : Game.Game)
    (o : list string) (ev : Game.Event) :
  fst (fst (Game.handle_event (s, g, o) ev)) = QUIT
  \/ fst (fst (Game.handle_event (s, g, o) ev)) = s.
Proof. rewrite handle_event_status. destruct ev; auto. Qed.

Lemma foldl_handle_event_status_cases (events : list Game.Event) :
  forall (s : GameStatus) (g : Game.Game) (o : list string),
    fst (fst (foldl Game.handle_event (s, g, o) events)) = QUIT
    \/ fst (fst (foldl Game.handle_event (s, g, o) events)) = s.
Proof.
  induction events as [| ev events IH]; intros s g o.
  - right. reflexivity.
  - cbn [foldl].
    pose proof (handle_event_status_cases s g o ev) as Hs.
    destruct (Game.handle_event (s, g, o) ev) as [[s' g'] o'].
    simpl in Hs. destruct (IH s' g' o') as [H | H]; [now left |].
    rewrite H. exact Hs.
Qed.

(** [update] answers QUIT or RUNNING and nothing else: QUIT exactly when
    the game has a window and one of the pending events is a quit event,
    RUNNING in every other case; so a headless game always answers
    RUNNING.  Events after the quit event are still handled. *)
Theorem game_update_status (self : Game.Game) (events : list Game.Event) :
  let status := fst (fst (Game.update self events)) in
  (status = QUIT \/ status = RUNNING)
  /\ (status = QUIT
      <-> Game.headless self = false /\ In Game.QuitEvent events)
  /\ (status = RUNNING
      <-> Game.headless self = true \/ ~ In Game.QuitEvent events)
  /\ (Game.headless self = true -> status = RUNNING).
Proof.
  intros status.
  assert (Hcases : status = QUIT \/ status = RUNNING).
  { unfold status, Game.update. destruct (Game.headless self); simpl.
    - now right.
    - apply foldl_handle_event_status_cases. }
  assert (Hquit : status = QUIT
                  <-> Game.headless self = false /\ In Game.QuitEvent events).
  { unfold status, Game.update. destruct (Game.headless self); simpl.
    - split; [discriminate | intros [H _]; discriminate].
    - rewrite foldl_handle_event_status. split.
      + intros [H | H]; [discriminate | auto].
      + intros [_ H]. now right. }
  split; [exact Hcases |]. split; [exact Hquit |]. split.
  - split.
    + intros Hrun. destruct (Game.headless self) eqn:Hh; [now left |].
      right. intros Hin.
      assert (Hq : status = QUIT) by (apply Hquit; auto).
      rewrite Hrun in Hq. discriminate.
    + intros Hno. destruct Hcases as [Hq | Hr]; [| exact Hr].
      apply Hquit in Hq. destruct Hq as [Hh Hin].
      destruct Hno as [Ht | Hn]; [congruence | contradiction].
  - intros Hh. destruct Hcases as [Hq | Hr]; [| exact Hr].
    apply Hquit in Hq. destruct Hq as [Hf _]. congruence.
Qed.

(** The two wind overlays are never shown together after [update] if
    they were not shown together before, and on a game with a window one
    press of m or n is enough to end a state in which both were on. *)
Theorem game_update_overlays_exclusive
    (self : Game.Game) (events : list Game.Event) :
  Game.show_wind_magnitude self && Game.show_wind_direction self = false
  \/ (Game.headless self = false
      /\ exists k_m k_n,
          In (Game.KeyDown k_m k_n) events /\ k_m || k_n = true) ->
  let self' := snd (fst (Game.update self events)) in
  Game.show_wind_magnitude self' && Game.show_wind_direction self' = false.
Proof.
  intros Hpre. unfold Game.update.
  destruct (Game.headless self) eqn:Hh; simpl.
  - destruct Hpre as [H | [H _]]; [exact H | discriminate].
  - apply foldl_handle_event_exclusive.
    destruct Hpre as [H | [_ H]]; [now left | now right].
Qed.

(** ** The conversion of a harness mitigation map *)

Lemma insert_unique_elem (v u : Z) (l : list Z) :
  In u (insert_unique v l) <-> u = v \/ In u l.
Proof.
  induction l as [| x l IH]; simpl.
  - intuition.
  - destruct (decide (v < x)%Z); [simpl; intuition |].
    destruct (decide (v = x)) as [-> | _]; simpl; [intuition |].
    rewrite IH. intuition.
Qed.

Lemma np_unique_elem (a : ndarray Z) (u : Z) :
  In u (np_unique a) <-> In u (concat a).
Proof.
  unfold np_unique. induction (concat a) as [| v l IH]; simpl; [tauto |].
  rewrite insert_unique_elem, IH. intuition.
Qed.

Lemma insert_unique_sorted (v : Z) (l : list Z) :
  StronglySorted Z.lt l -> StronglySorted Z.lt (insert_unique v l).
Proof.
  induction l as [| x l IH]; intros Hs; simpl.
  - repeat constructor.
  - inversion Hs as [| ? ? Hl Hx]; subst.
    destruct (decide (v < x)%Z) as [Hlt | Hge].
    + constructor; [exact Hs |]. constructor; [exact Hlt |].
      eapply Forall_impl; [exact Hx |]. intros y Hy. simpl in *. lia.
    + destruct (decide (v = x)) as [-> | Hne]; [exact Hs |].
      constructor; [now apply IH |].
      apply Forall_forall. intros y Hy.
      apply list_elem_of_In, insert_unique_elem in Hy as [-> | Hy]; [lia |].
      rewrite Forall_forall in Hx. apply Hx. now apply list_elem_of_In.
Qed.

Lemma np_unique_sorted (a : ndarray Z) : StronglySorted Z.lt (np_unique a).
Proof.
  unfold np_unique. induction (concat a) as [| v l IH]; simpl.
  - constructor.
  - now apply insert_unique_sorted.
Qed.

Lemma dict_set_fresh (d : list (string * Z)) (k : string) (v : Z) :
  ~ In k (map fst d) -> dict_set d k v = d ++ [(k, v)].
Proof.
  induction d as [| [k' v'] d IH]; intros Hk; simpl; [reflexivity |].
  simpl in Hk. rewrite decide_False by intuition.
  rewrite IH by intuition. reflexivity.
Qed.

Lemma harness_dict_from_fresh (ints : list Z) :
  forall (d : list (string * Z)) (actions : list string),
    (length ints <= length actions)%nat ->
    NoDup (map fst d ++ take (length ints) actions) ->
    harness_dict_from d actions ints
    = Returns (d ++ zip (take (length ints) actions) ints).
Proof.
  induction ints as [| v ints IH]; intros d actions Hlen Hnd; simpl.
  - destruct actions; cbn; now rewrite app_nil_r.
  - destruct actions as [| a actions]; [simpl in Hlen; lia |].
    simpl in Hlen, Hnd.
    assert (Hfresh : ~ In a (map fst d)).
    { apply NoDup_app in Hnd as (_ & Hdis & _).
      intros Hin. apply (Hdis a); [now apply list_elem_of_In | left]. }
    cbn [harness_dict_from]. rewrite dict_set_fresh by exact Hfresh.
    rewrite IH.
    + simpl. now rewrite <- app_assoc.
    + lia.
    + rewrite map_app. simpl. rewrite <- app_assoc. exact Hnd.
Qed.

Lemma harness_dict_from_short (ints : list Z) :
  forall (d : list (string * Z)) (actions : list string),
    (length actions < length ints)%nat ->
    harness_dict_from d actions ints = Raises "IndexError".
Proof.
  induction ints as [| v ints IH]; intros d actions Hlen; simpl in *; [lia |].
  destruct actions as [| a actions]; [reflexivity |].
  apply IH. simpl in Hlen. lia.
Qed.

Lemma first_key_of_value (v : Z) (ints : list Z) :
  forall names : list string,
    length names = length ints -> In v ints ->
    exists (r : nat) (a : string) (rest : list string),
      ints !! r = Some v /\ names !! r = Some a
      /\ map fst (filter (fun kv : string * Z => snd kv = v) (zip names ints))
         = a :: rest.
Proof.
  induction ints as [| x ints IH]; intros names Hlen Hin; [destruct Hin |].
  destruct names as [| a names]; [discriminate |].
  simpl in Hlen. cbn [zip zip_with]. rewrite filter_cons. cbn [snd].
  destruct (decide (x = v)) as [-> | Hne].
  - exists 0%nat, a. eexists. repeat split.
  - destruct Hin as [-> | Hin]; [congruence |].
    destruct (IH names ltac:(lia) Hin) as (r & b & rest & Hr & Hb & Hf).
    exists (S r), b, rest. repeat split; assumption.
Qed.

Lemma convert_cells_Forall2 (Rel : Z -> Z -> Prop)
    (d : list (string * Z)) (cells : list Z) :
  Forall (fun c => exists o, convert_cell d c = Returns o /\ Rel c o) cells ->
  exists outs : list Z,
    convert_cells d cells = Returns outs /\ Forall2 Rel cells outs.
Proof.
  induction cells as [| c cells IH]; intros Hall.
  - exists []. split; [reflexivity | constructor].
  - inversion Hall as [| ? ? (o & Ho & Hrel) Hrest]; subst.
    destruct (IH Hrest) as (outs & Houts & Hrels).
    exists (o :: outs). simpl. rewrite Ho, Houts.
    split; [reflexivity | now constructor].
Qed.

Lemma convert_cells_inv (P : Z -> Prop)
    (d : list (string * Z)) (cells outs : list Z) :
  (forall c o, convert_cell d c = Returns o -> P o) ->
  convert_cells d cells = Returns outs ->
  length outs = length cells /\ Forall P outs.
Proof.
  intros HP. revert outs. induction cells as [| c cells IH]; intros outs H.
  - injection H as <-. split; [reflexivity | constructor].
  - simpl in H.
    destruct (convert_cell d c) as [o |] eqn:Ho; [| discriminate].
    destruct (convert_cells d cells) as [os |] eqn:Hos; [| discriminate].
    injection H as <-. destruct (IH os eq_refl) as [Hl Hf].
    split; [simpl; lia |]. constructor; [now apply (HP c) | exact Hf].
Qed.

Lemma convert_cell_codes (d : list (string * Z)) (c o : Z) :
  convert_cell d c = Returns o -> (o = 1 \/ o = 4 \/ o = 5 \/ o = 6)%Z.
Proof.
  unfold convert_cell.
  destruct (map fst (filter _ d)) as [| a rest]; [discriminate |].
  destruct (get_actions !! a) as [s |] eqn:Hs; [| discriminate].
  intros H. injection H as <-.
  unfold get_actions in Hs.
  repeat (apply lookup_insert_Some in Hs as [[_ <-] | [_ Hs]];
          [cbv; tauto |]).
  apply lookup_singleton_Some in Hs as [_ <-]. cbv. tauto.
Qed.

Lemma length_concat_shape {A} (a : ndarray A) (n m : nat) :
  has_shape a n m -> length (concat a) = (n * m)%nat.
Proof.
  intros [Hn Hm]. subst n. induction a as [| row a IH]; [reflexivity |].
  inversion Hm as [| ? ? Hrow Hrest]; subst.
  simpl. rewrite length_app, IH by exact Hrest. reflexivity.
Qed.

Lemma rows_of_concat {A} (a : ndarray A) (n m : nat) :
  has_shape a n m -> rows_of n m (concat a) = a.
Proof.
  intros [Hn Hm]. subst n. induction a as [| row a IH]; [reflexivity |].
  inversion Hm as [| ? ? Hrow Hrest]; subst.
  simpl. rewrite take_app_length, drop_app_length, IH by exact Hrest.
  reflexivity.
Qed.

Lemma rows_of_Forall2 {A B} (Rel : A -> B -> Prop) (n m : nat) :
  forall (l : list A) (l' : list B),
    Forall2 Rel l l' -> Forall2 (Forall2 Rel) (rows_of n m l) (rows_of n m l').
Proof.
  induction n as [| n IH]; intros l l' H; simpl; constructor.
  - now apply Forall2_take.
  - apply IH. now apply Forall2_drop.
Qed.

Lemma rows_of_Forall {A} (P : A -> Prop) (n m : nat) :
  forall l : list A, Forall P l -> Forall (Forall P) (rows_of n m l).
Proof.
  induction n as [| n IH]; intros l H; simpl; constructor.
  - now apply Forall_take.
  - apply IH. now apply Forall_drop.
Qed.

Lemma rows_of_shape {A} (n m : nat) :
  forall l : list A, length l = (n * m)%nat -> has_shape (rows_of n m l) n m.
Proof.
  induction n as [| n IH]; intros l Hl; simpl.
  - split; [reflexivity | constructor].
  - destruct (IH (drop m l)) as [Hn Hm].
    { rewrite length_drop. lia. }
    split; [simpl; lia |]. constructor; [| exact Hm].
    rewrite length_take. lia.
Qed.

(** A square map of at least two rows converts when [actions] names,
    without repetition, a simulation action for each distinct value of
    the map: each cell is replaced by the burn-status code of the action
    standing at the rank of its value among the distinct values in
    increasing order. *)
Theorem conversion_maps_cells
    (actions : list string) (mitigation_map : ndarray Z) (n : nat) :
  has_shape mitigation_map n n -> (2 <= n)%nat ->
  let harness_ints := np_unique mitigation_map in
  (length harness_ints <= length actions)%nat ->
  NoDup (take (length harness_ints) actions) ->
  Forall (fun a => is_Some (get_actions !! a))
         (take (length harness_ints) actions) ->
  StronglySorted Z.lt harness_ints
  /\ exists out : ndarray Z,
      conversion actions mitigation_map = Returns out
      /\ Forall2 (Forall2 (fun v o =>
                    exists (r : nat) (a : string) (s : BurnStatus),
                      harness_ints !! r = Some v /\ actions !! r = Some a
                      /\ get_actions !! a = Some s /\ o = value s))
                 mitigation_map out.
Proof.
  intros Hshape Hn ints Hlen Hnd Hvalid.
  split; [apply np_unique_sorted |].
  unfold conversion. fold ints.
  rewrite harness_dict_from_fresh by assumption. cbn [app].
  set (names := take (length ints) actions) in *.
  assert (Hnames : length names = length ints).
  { unfold names. rewrite length_take. lia. }
  set (Rel := fun v o : Z =>
                exists (r : nat) (a : string) (s : BurnStatus),
                  ints !! r = Some v /\ actions !! r = Some a
                  /\ get_actions !! a = Some s /\ o = value s).
  destruct (convert_cells_Forall2 Rel (zip names ints) (concat mitigation_map))
    as (outs & Houts & Hrel).
  { apply Forall_forall. intros c Hc.
    assert (Hin : In c ints).
    { apply np_unique_elem. now apply list_elem_of_In. }
    destruct (first_key_of_value c ints names Hnames Hin)
      as (r & a & rest & Hr & Ha & Hf).
    assert (Ha' : actions !! r = Some a).
    { unfold names in Ha. apply lookup_take_Some in Ha. tauto. }
    rewrite Forall_forall in Hvalid.
    destruct (Hvalid a (list_elem_of_lookup_2 _ _ _ Ha)) as [s Hs].
    exists (value s). unfold convert_cell. rewrite Hf, Hs.
    split; [reflexivity |]. exists r, a, s. auto. }
  rewrite Houts.
  destruct Hshape as [Hrows Hcols].
  destruct mitigation_map as [| row0 [| row1 rest]]; simpl in Hrows; try lia.
  cbn [lookup list_lookup].
  assert (H0 : length row0 = n).
  { inversion Hcols; assumption. }
  assert (H1 : length row1 = n).
  { inversion Hcols as [| ? ? _ Hc']; subst. inversion Hc'; assumption. }
  rewrite H0, H1. unfold reshape.
  pose proof (Forall2_length _ _ _ Hrel) as Hl.
  rewrite (length_concat_shape _ n n) in Hl by (split; [simpl; lia | exact Hcols]).
  rewrite decide_True by lia.
  eexists. split; [reflexivity |].
  rewrite <- (rows_of_concat (row0 :: row1 :: rest) n n) at 1
    by (split; [simpl; lia | exact Hcols]).
  now apply rows_of_Forall2.
Qed.

(** Whatever the map and the names, a converted map holds only the codes
    of UNBURNED, FIRELINE, SCRATCHLINE and WETLINE: conversion never
    writes 0, BURNING or BURNED. *)
Theorem conversion_codes
    (actions : list string) (mitigation_map out : ndarray Z) :
  conversion actions mitigation_map = Returns out ->
  Forall (Forall (fun o => o = 1 \/ o = 4 \/ o = 5 \/ o = 6)%Z) out.
Proof.
  unfold conversion. intros H.
  destruct (harness_dict_from [] actions (np_unique mitigation_map))
    as [d |]; [| discriminate].
  destruct (convert_cells d (concat mitigation_map)) as [outs |] eqn:Houts;
    [| discriminate].
  destruct (mitigation_map !! 0%nat) as [row0 |]; [| discriminate].
  destruct (mitigation_map !! 1%nat) as [row1 |]; [| discriminate].
  unfold reshape in H.
  destruct (decide (length outs = length row0 * length row1)%nat);
    [| discriminate].
  injection H as <-.
  apply rows_of_Forall.
  eapply (convert_cells_inv _ d); [| exact Houts].
  apply convert_cell_codes.
Qed.

(** The result is reshaped to the lengths of the first two rows, so only
    square maps convert: if [conversion] returns on a rectangular map
    whose rows are not empty, the map has at least two rows and as many
    rows as columns, and the result has that shape. *)
Theorem conversion_needs_square_map
    (actions : list string) (mitigation_map out : ndarray Z) (rows cols : nat) :
  has_shape mitigation_map rows cols -> cols <> 0%nat ->
  conversion actions mitigation_map = Returns out ->
  (2 <= rows)%nat /\ rows = cols /\ has_shape out rows cols.
Proof.
  intros Hshape Hcols. unfold conversion. intros H.
  destruct (harness_dict_from [] actions (np_unique mitigation_map))
    as [d |]; [| discriminate].
  destruct (convert_cells d (concat mitigation_map)) as [outs |] eqn:Houts;
    [| discriminate].
  destruct (convert_cells_inv (fun _ => True) d _ _ (fun _ _ _ => I) Houts)
    as [Hlen _].
  rewrite (length_concat_shape _ _ _ Hshape) in Hlen.
  destruct Hshape as [Hr Hc].
  destruct mitigation_map as [| row0 [| row1 rest]]; try discriminate.
  cbn [lookup list_lookup] in H.
  assert (H0 : length row0 = cols) by (inversion Hc; assumption).
  assert (H1 : length row1 = cols).
  { inversion Hc as [| ? ? _ Hc']; subst. inversion Hc'; assumption. }
  rewrite H0, H1 in H. unfold reshape in H.
  destruct (decide (length outs = cols * cols)%nat) as [Hsq |]; [| discriminate].
  injection H as <-.
  assert (Heq : rows = cols) by nia.
  split; [simpl in Hr; lia |]. split; [exact Heq |].
  rewrite Heq. now apply rows_of_shape.
Qed.

(** With fewer names than the map has distinct values, [conversion]
    raises [IndexError]. *)
Theorem conversion_too_few_actions
    (actions : list string) (mitigation_map : ndarray Z) :
  (length actions < length (np_unique mitigation_map))%nat ->
  conversion actions mitigation_map = Raises "IndexError".
Proof.
  intros Hlen. unfold conversion.
  now rewrite harness_dict_from_short.
Qed.

(** ** Moving the agent marker back *)

Lemma setitems_cons (p : list Z) (i : Z) (idx : list Z) (v : Z) :
  setitems p (i :: idx) v
  = match setitem p i v with
    | Some p1 => setitems p1 idx v
    | None => None
    end.
Proof.
  unfold setitems. cbn [foldl].
  destruct (setitem p i v) as [p1 |]; [reflexivity |].
  induction idx as [| j idx IH]; [reflexivity | exact IH].
Qed.

Lemma setitems_spec (v : Z) (idx : list Z) :
  forall p : list Z,
    Forall (fun i => is_Some (axis_index (length p) i)) idx ->
    exists p' : list Z,
      setitems p idx v = Some p'
      /\ length p' = length p
      /\ (forall (j : nat) (i : Z),
             In i idx -> axis_index (length p) i = Some j ->
             p' !! j = Some v)
      /\ (forall j : nat,
             (forall i : Z, In i idx -> axis_index (length p) i <> Some j) ->
             p' !! j = p !! j).
Proof.
  induction idx as [| i idx IH]; intros p Hvalid.
  - exists p. repeat split; try reflexivity. intros j i [].
  - inversion Hvalid as [| ? ? [k Hk] Hrest]; subst.
    rewrite setitems_cons. unfold setitem. rewrite Hk.
    pose proof (axis_index_bound _ _ _ Hk) as Hkl.
    destruct (IH (<[k := v]> p)) as (p' & Hrun & Hlen & Hhit & Hmiss).
    { rewrite length_insert. exact Hrest. }
    rewrite length_insert in Hlen, Hhit, Hmiss.
    exists p'. split; [exact Hrun |]. split; [exact Hlen |]. split.
    + intros j i' Hin Hj.
      destruct (decide (Exists (fun i'' => axis_index (length p) i'' = Some j)
                               idx)) as [Hex | Hnone].
      * apply Exists_exists in Hex as (i'' & Hin'' & Hj'').
        apply (Hhit j i''); [now apply list_elem_of_In | exact Hj''].
      * assert (Hnone' : forall i'', In i'' idx ->
                                     axis_index (length p) i'' <> Some j).
        { intros i'' Hin'' Hj''. apply Hnone, Exists_exists.
          exists i''. split; [now apply list_elem_of_In | exact Hj'']. }
        rewrite Hmiss by exact Hnone'.
        destruct Hin as [<- | Hin]; [| exfalso; now apply (Hnone' i')].
        assert (j = k) by congruence. subst j.
        now apply list_lookup_insert_eq.
    + intros j Hnot.
      rewrite Hmiss by (intros i' Hin'; apply Hnot; now right).
      apply list_lookup_insert_ne.
      intros ->. apply (Hnot i); [now left | exact Hk].
Qed.

Lemma concat_rows_of {A} (n m : nat) :
  forall l : list A, length l = (n * m)%nat -> concat (rows_of n m l) = l.
Proof.
  induction n as [| n IH]; intros l Hl; simpl.
  - destruct l; [reflexivity | discriminate].
  - rewrite IH by (rewrite length_drop; lia). apply take_drop.
Qed.

Lemma prev_index (L i : nat) :
  (i < L)%nat ->
  axis_index L (Z.of_nat i - 1)
  = Some (if decide (i = 0)%nat then (L - 1)%nat else (i - 1)%nat).
Proof.
  intros Hi. unfold axis_index.
  destruct (decide (i = 0)%nat) as [-> | Hne].
  - rewrite decide_False by lia. rewrite decide_True by lia. f_equal. lia.
  - rewrite decide_True by lia. f_equal. lia.
Qed.

Lemma prev_index_next (L i j : nat) :
  (i < L)%nat -> (j < L)%nat ->
  (if decide (i = 0)%nat then (L - 1)%nat else (i - 1)%nat) = j
  <-> ((j + 1) mod L)%nat = i.
Proof.
  intros Hi Hj.
  destruct (decide (j + 1 = L)%nat) as [He | Hne].
  - rewrite He, Nat.Div0.mod_same.
    destruct (decide (i = 0)%nat); split; lia.
  - rewrite Nat.mod_small by lia.
    destruct (decide (i = 0)%nat); split; lia.
Qed.

(** What [_correct_pos] leaves in the flattened array [pos]. *)
Lemma correct_pos_flat (pos : list Z) :
  let current_pos :=
    filter (fun i => pos !! i = Some 1%Z) (seq 0 (length pos)) in
  exists p1 p2 : list Z,
    setitems pos (map (fun i => (Z.of_nat i - 1)%Z) current_pos) 1 = Some p1
    /\ setitems p1 (map Z.of_nat current_pos) 0 = Some p2
    /\ length p2 = length pos
    /\ forall (j : nat) (v : Z),
        pos !! j = Some v ->
        p2 !! j
        = Some (if decide (v = 1)%Z then 0%Z
                else if decide (pos !! ((j + 1) mod length pos)%nat = Some 1%Z)
                     then 1%Z else v).
Proof.
  intros current_pos. set (L := length pos).
  assert (Hcur : forall i, In i current_pos
                           <-> (i < L)%nat /\ pos !! i = Some 1%Z).
  { intros i. unfold current_pos.
    rewrite <- list_elem_of_In, list_elem_of_filter, list_elem_of_In, in_seq.
    split; [intros [H1 H2] | intros [H1 H2]]; split; auto; lia. }
  destruct (setitems_spec 1 (map (fun i => (Z.of_nat i - 1)%Z) current_pos) pos)
    as (p1 & Hrun1 & Hlen1 & Hhit1 & Hmiss1).
  { apply Forall_forall. intros z Hz.
    apply list_elem_of_In, in_map_iff in Hz as (i & <- & Hi).
    apply Hcur in Hi as [Hi _]. fold L.
    rewrite prev_index by exact Hi. eauto. }
  destruct (setitems_spec 0 (map Z.of_nat current_pos) p1)
    as (p2 & Hrun2 & Hlen2 & Hhit2 & Hmiss2).
  { apply Forall_forall. intros z Hz.
    apply list_elem_of_In, in_map_iff in Hz as (i & <- & Hi).
    apply Hcur in Hi as [Hi _]. rewrite Hlen1. fold L.
    rewrite axis_index_nonneg by lia. eauto. }
  fold L in Hhit1, Hmiss1. rewrite Hlen1 in Hhit2, Hmiss2, Hlen2.
  fold L in Hhit2, Hmiss2, Hlen2.
  exists p1, p2. split; [exact Hrun1 |]. split; [exact Hrun2 |].
  split; [exact Hlen2 |].
  intros j v Hv.
  assert (Hj : (j < L)%nat) by (apply lookup_lt_Some in Hv; exact Hv).
  destruct (decide (v = 1)%Z) as [-> | Hv1].
  - apply (Hhit2 j (Z.of_nat j)).
    + apply in_map. apply Hcur. auto.
    + rewrite axis_index_nonneg by lia. f_equal. lia.
  - rewrite Hmiss2.
    2:{ intros z Hz Hidx. apply in_map_iff in Hz as (i & <- & Hi).
        apply Hcur in Hi as [Hi Hi1].
        rewrite axis_index_nonneg in Hidx by lia.
        assert (i = j) by (injection Hidx; lia). subst i. congruence. }
    destruct (decide (pos !! ((j + 1) mod L)%nat = Some 1%Z)) as [Hn | Hn].
    + apply (Hhit1 j (Z.of_nat ((j + 1) mod L) - 1)%Z).
      * apply in_map_iff. exists ((j + 1) mod L)%nat. split; [reflexivity |].
        apply Hcur. split; [apply Nat.mod_upper_bound; lia | exact Hn].
      * rewrite prev_index by (apply Nat.mod_upper_bound; lia).
        f_equal. apply prev_index_next; [apply Nat.mod_upper_bound |..]; lia.
    + rewrite Hmiss1; [exact Hv |].
      intros z Hz Hidx. apply in_map_iff in Hz as (i & <- & Hi).
      apply Hcur in Hi as [Hi Hi1].
      rewrite prev_index in Hidx by exact Hi.
      injection Hidx as Hidx. apply prev_index_next in Hidx; try lia.
      subst i. contradiction.
Qed.

(** On a [screen_size] by [screen_size] array, [_correct_pos] returns an
    array of the same shape in which, in row-major order, every cell that
    held 1 holds 0, every other cell whose successor held 1 holds 1 (the
    successor of the last cell being the first one), and every remaining
    cell is unchanged. *)
Theorem correct_pos_shifts_back (screen_size : nat) (position : ndarray Z) :
  has_shape position screen_size screen_size ->
  exists out : ndarray Z,
    _correct_pos screen_size position = Returns out
    /\ has_shape out screen_size screen_size
    /\ forall (j : nat) (v : Z),
        concat position !! j = Some v ->
        concat out !! j
        = Some (if decide (v = 1)%Z then 0%Z
                else if decide (concat position
                                  !! ((j + 1) mod (screen_size * screen_size))%nat
                                = Some 1%Z)
                     then 1%Z else v).
Proof.
  intros Hshape.
  pose proof (length_concat_shape _ _ _ Hshape) as HL.
  destruct (correct_pos_flat (concat position))
    as (p1 & p2 & Hrun1 & Hrun2 & Hlen & Hcells).
  unfold _correct_pos. rewrite Hrun1, Hrun2. unfold reshape.
  rewrite decide_True by lia.
  eexists. split; [reflexivity |]. split.
  - apply rows_of_shape. lia.
  - intros j v Hv. rewrite concat_rows_of by lia.
    rewrite <- HL. now apply Hcells.
Qed.

(** On an array with another number of cells than [screen_size] squared,
    [_correct_pos] raises [ValueError]. *)
Theorem correct_pos_wrong_size (screen_size : nat) (position : ndarray Z) :
  length (concat position) <> (screen_size * screen_size)%nat ->
  _correct_pos screen_size position = Raises "ValueError".
Proof.
  intros Hsize.
  destruct (correct_pos_flat (concat position))
    as (p1 & p2 & Hrun1 & Hrun2 & Hlen & _).
  unfold _correct_pos. rewrite Hrun1, Hrun2. unfold reshape.
  now rewrite decide_False by lia.
Qed.

(** Witnesses for the game window and the harness conversion. *)
Lemma game_update_overlays_exclusive_witness :
  let self' :=
    snd (fst (Game.update (Game.mkGame false true true)
                          [Game.KeyDown true false])) in
  Game.show_wind_magnitude self' && Game.show_wind_direction self' = false.
Proof.
  apply (game_update_overlays_exclusive
           (Game.mkGame false true true) [Game.KeyDown true false]).
  right. split; [reflexivity |].
  exists true, false. split; [left; reflexivity | reflexivity].
Defined.

Example conversion_of_a_checkerboard :
  conversion ["none"; "fireline"] [[0; 1]; [1; 0]]%Z
  = Returns [[1; 4]; [4; 1]]%Z.
Proof. vm_compute. reflexivity. Qed.

Lemma conversion_maps_cells_witness :
  let actions := ["none"; "fireline"] in
  let mitigation_map := [[0; 1]; [1; 0]]%Z in
  let harness_ints := np_unique mitigation_map in
  StronglySorted Z.lt harness_ints
  /\ exists out : ndarray Z,
      conversion actions mitigation_map = Returns out
      /\ Forall2 (Forall2 (fun v o =>
                    exists (r : nat) (a : string) (s : BurnStatus),
                      harness_ints !! r = Some v /\ actions !! r = Some a
                      /\ get_actions !! a = Some s /\ o = value s))
                 mitigation_map out.
Proof.
  apply (conversion_maps_cells ["none"; "fireline"] [[0; 1]; [1; 0]]%Z 2).
  - split; [reflexivity | repeat constructor].
  - lia.
  - vm_compute. lia.
  - apply (bool_decide_unpack _). vm_compute. exact I.
  - repeat constructor; eexists; vm_compute; reflexivity.
Defined.

Lemma conversion_codes_witness :
  Forall (Forall (fun o => o = 1 \/ o = 4 \/ o = 5 \/ o = 6)%Z)
         [[1; 4]; [4; 1]]%Z.
Proof.
  exact (conversion_codes _ _ _ conversion_of_a_checkerboard).
Defined.

Lemma conversion_needs_square_map_witness :
  (2 <= 2)%nat /\ 2%nat = 2%nat /\ has_shape [[1; 4]; [4; 1]]%Z 2 2.
Proof.
  apply (conversion_needs_square_map
           ["none"; "fireline"] [[0; 1]; [1; 0]]%Z [[1; 4]; [4; 1]]%Z 2 2).
  - split; [reflexivity | repeat constructor].
  - lia.
  - exact conversion_of_a_checkerboard.
Defined.

Lemma conversion_too_few_actions_witness :
  conversion ["none"] [[0; 1]; [1; 0]]%Z = Raises "IndexError".
Proof.
  apply conversion_too_few_actions. vm_compute. lia.
Defined.

Lemma correct_pos_shifts_back_witness :
  exists out : ndarray Z,
    _correct_pos 2 [[0; 0]; [1; 0]]%Z = Returns out
    /\ has_shape out 2 2
    /\ forall (j : nat) (v : Z),
        concat [[0; 0]; [1; 0]]%Z !! j = Some v ->
        concat out !! j
        = Some (if decide (v = 1)%Z then 0%Z
                else if decide (concat [[0; 0]; [1; 0]]%Z
                                  !! ((j + 1) mod (2 * 2))%nat
                                = Some 1%Z)
                     then 1%Z else v).
Proof.
  apply (correct_pos_shifts_back 2 [[0; 0]; [1; 0]]%Z).
  split; [reflexivity | repeat constructor].
Defined.

Example correct_pos_wraps_to_the_last_cell :
  _correct_pos 2 [[1; 0]; [0; 0]]%Z = Returns [[0; 0]; [0; 1]]%Z.
Proof. vm_compute. reflexivity. Qed.

Example correct_pos_merges_neighbours :
  _correct_pos 2 [[0; 1]; [1; 0]]%Z = Returns [[1; 0]; [0; 0]]%Z.
Proof. vm_compute. reflexivity. Qed.

Lemma correct_pos_wrong_size_witness :
  _correct_pos 2 [[1]]%Z = Raises "ValueError".
Proof.
  apply correct_pos_wrong_size. simpl. lia.
Defined.
